(** * BatchFlow: the engine, the processors, the executor and the drivers

    A shallow embedding of the Go package [batchflow] and the properties
    its specification states about it.

    - [batchflow.go]: [NewBatchFlow]'s flush function and [BatchFlow.Submit];
    - [processor.go]: [SQLBatchProcessor] and [RedisBatchProcessor];
    - the schema declarations ([SchemaInterface], [Schema], [SQLSchema]);
    - the executor's retry loop and the relational drivers, whose source
      files are missing, after the specification.

    Go values are modelled as follows.  An [error] is a value of the
    inductive type [error]; [nil] is [None] of [option error].  A
    [map[string]any] is a [gmap string any].  A pointer is an address
    ([positive]) into a heap; an interface value holding a pointer is the
    pair of its dynamic type and the address.  A [context.Context] is a
    function from observations to states: a context changes while the code
    runs, every [ctx.Err()], [ctx.Done()] and [context.Cause(ctx)] of a
    call is one observation, and the function gives the state the context
    is in at each of them. *)

From Stdlib Require Import ZArith String List Bool Lia DecimalString.
From stdpp Require Import gmap strings list fin_maps.

Local Open Scope string_scope.
Local Open Scope Z_scope.
#[local] Set Warnings "-register-all".

(** ** Values, errors and contexts *)

(** The dynamic values a [map[string]any] row holds. *)
Inductive any :=
| ANil
| AInt (z : Z)
| AFloat (bits : Z)
| AString (s : string)
| ABool (b : bool)
| ATime (unix_nanos : Z)
| ABytes (bs : list Z).

(** Go errors.  The package-level sentinels are constants; [errors.New]
    allocates a new error value, so two calls with one message give two
    different errors: [ErrorsNew] carries the address. *)
Inductive error :=
| Canceled
| DeadlineExceeded
| ErrEmptyRequest
| ErrInvalidSchema
| ErrMissingColumn
| ErrEmptySchemaName
| ErrorsNew (addr : positive) (msg : string)
| Wrapped (msg : string) (inner : error)
| Joined (errs : list error).

(** [err == target] for the comparable sentinels and [errors.New] values. *)
Definition same_error (e target : error) : bool :=
  match e, target with
  | Canceled, Canceled => true
  | DeadlineExceeded, DeadlineExceeded => true
  | ErrEmptyRequest, ErrEmptyRequest => true
  | ErrInvalidSchema, ErrInvalidSchema => true
  | ErrMissingColumn, ErrMissingColumn => true
  | ErrEmptySchemaName, ErrEmptySchemaName => true
  | ErrorsNew a _, ErrorsNew b _ => Pos.eqb a b
  | _, _ => false
  end.

(** [errors.Is(err, target)]: the error itself, or one it wraps or joins. *)
Fixpoint errors_Is (e target : error) : bool :=
  same_error e target ||
  match e with
  | Wrapped _ inner => errors_Is inner target
  | Joined errs => existsb (fun x => errors_Is x target) errs
  | _ => false
  end.

(** [errors.New(msg)] with the allocator's next free address. *)
Definition errors_New (next : positive) (msg : string) : error * positive :=
  (ErrorsNew next msg, Pos.succ next).

(** Every [errors.New] value inside [e] was allocated before [next]. *)
Fixpoint allocated_before (next : positive) (e : error) : bool :=
  match e with
  | ErrorsNew a _ => Pos.ltb a next
  | Wrapped _ inner => allocated_before next inner
  | Joined errs => forallb (allocated_before next) errs
  | _ => true
  end.

(** [errors.Join(err, e)] as the key-value processor uses it: [err] may be
    nil, [e] is not. *)
Definition errors_Join (err : option error) (e : error) : option error :=
  match err with
  | None => Some (Joined [e])
  | Some x => Some (Joined [x; e])
  end.

(** The two errors [ctx.Err()] can return. *)
Inductive ctx_error := CtxCanceled | CtxDeadlineExceeded.

Definition ctx_error_to_error (c : ctx_error) : error :=
  match c with
  | CtxCanceled => Canceled
  | CtxDeadlineExceeded => DeadlineExceeded
  end.

(** The state of a context at one observation. *)
Inductive ctx_state :=
| Live
| Done (err : ctx_error) (cause : error).

Definition Context := nat -> ctx_state.

Definition ctx_Err (s : ctx_state) : option error :=
  match s with
  | Live => None
  | Done e _ => Some (ctx_error_to_error e)
  end.

Definition context_Cause (s : ctx_state) : option error :=
  match s with
  | Live => None
  | Done _ cause => Some cause
  end.

(** [context.WithTimeoutCause(parent, d, cause)].  The child is done as soon
    as its parent is, or when its own timer fires; what happens first fixes
    [Err] and [Cause].  [own_deadline t] says that at observation [t] the
    child's timer has fired, and fired before the parent was done. *)
Definition WithTimeoutCause (parent : Context) (own_deadline : nat -> bool)
    (cause : error) : Context :=
  fun t => if own_deadline t then Done CtxDeadlineExceeded cause else parent t.

Definition background : Context := fun _ => Live.

(** ** Schemas and requests *)

Definition ConflictStrategy := Z.
Definition ConflictIgnore : ConflictStrategy := 0.
Definition ConflictReplace : ConflictStrategy := 1.
Definition ConflictUpdate : ConflictStrategy := 2.

Record SQLOperationConfig := { conflictStrategy : ConflictStrategy }.

Record Schema := { name : string; columns : list string }.

Definition NewSchema (n : string) (cols : list string) : Schema :=
  {| name := n; columns := cols |}.

Record SQLSchema := { embedded : Schema; operationConfig : SQLOperationConfig }.

Definition NewSQLSchema (n : string) (conf : SQLOperationConfig)
    (cols : list string) : SQLSchema :=
  {| embedded := NewSchema n cols; operationConfig := conf |}.

Definition ConflictIgnoreOperationConfig : SQLOperationConfig :=
  {| conflictStrategy := ConflictIgnore |}.
Definition ConflictReplaceOperationConfig : SQLOperationConfig :=
  {| conflictStrategy := ConflictReplace |}.
Definition ConflictUpdateOperationConfig : SQLOperationConfig :=
  {| conflictStrategy := ConflictUpdate |}.

(** A non-nil [SchemaInterface] value: the dynamic type and the pointer.  Go
    compares two interface values, and so two map keys, by exactly these. *)
Inductive SchemaInterface :=
| PtrSchema (p : positive)
| PtrSQLSchema (p : positive).

Global Instance SchemaInterface_eq_dec : EqDecision SchemaInterface.
Proof. solve_decision. Defined.

Global Instance SchemaInterface_countable : Countable SchemaInterface.
Proof.
  refine (inj_countable'
            (fun s => match s with PtrSchema p => inl p | PtrSQLSchema p => inr p end)
            (fun x => match x with inl p => PtrSchema p | inr p => PtrSQLSchema p end) _).
  intros []; reflexivity.
Defined.

(** The schema objects the pointers refer to.  Schemas are created before
    use and never written afterwards, so the heap is read only. *)
Record Heap := {
  schema_at : positive -> Schema;
  sqlschema_at : positive -> SQLSchema
}.

Definition Name (h : Heap) (s : SchemaInterface) : string :=
  match s with
  | PtrSchema p => name (schema_at h p)
  | PtrSQLSchema p => name (embedded (sqlschema_at h p))
  end.

Definition Columns (h : Heap) (s : SchemaInterface) : list string :=
  match s with
  | PtrSchema p => columns (schema_at h p)
  | PtrSQLSchema p => columns (embedded (sqlschema_at h p))
  end.

(** A request, as far as the engine reads it.  [Request] is declared in a
    file that is not part of the sources at hand; the engine calls
    [request.Schema()], whose result may be the nil interface, and
    [request.GetOrderedValues()], whose result is taken as a field. *)
Record Request := {
  SchemaOf : option SchemaInterface;
  GetOrderedValues : list any
}.

(** ** The engine's flush function *)

Abbreviation row := (gmap string any).

(** What one flush or one submit does to its collaborators, in order. *)
Inductive event :=
| ObserveBatchSize (n : nat)
| ObserveBatchAssemble
| ExecuteBatchCall (schema : option SchemaInterface) (data : list row)
    (result : option error)
| ObserveEnqueueLatency
| SetQueueLength (n : nat).

(** How a Go function ends. *)
Inductive outcome (A : Type) :=
| Returns (a : A)
| Panics.
Arguments Returns {A} a.
Arguments Panics {A}.

(** [schemaGroups[schema] = append(schemaGroups[schema], request)] over the
    batch; the key may be the nil interface. *)
Definition add_request (groups : gmap (option SchemaInterface) (list Request))
    (request : Request) : gmap (option SchemaInterface) (list Request) :=
  let schema := SchemaOf request in
  <[schema := (default [] (groups !! schema) ++ [request])%list]> groups.

Definition schemaGroups (batchData : list Request)
    : gmap (option SchemaInterface) (list Request) :=
  fold_left add_request batchData ∅.

(** The inner loop: [for j, col := range columns { if j < len(values) {
    rowData[col] = values[j] } }], from column [j] on. *)
Fixpoint fill_row (j : nat) (cols : list string) (values : list any)
    (rowData : row) : row :=
  match cols with
  | [] => rowData
  | col :: rest =>
      fill_row (S j) rest values
        (match values !! j with
         | Some v => <[col := v]> rowData
         | None => rowData
         end)
  end.

Definition rowData_of (cols : list string) (values : list any) : row :=
  fill_row 0 cols values ∅.

(** Reading a Go map: a missing key reads as the zero value, nil. *)
Definition map_read (m : row) (col : string) : any := default ANil (m !! col).

Section Flush.

(** The executor behind the engine is an interface: a state of its own and
    [ExecuteBatch], which may receive the nil interface as its schema. *)
Context {ES : Type}.
Variable ExecuteBatch :
  ES -> option SchemaInterface -> list row -> option error * ES.
Variable h : Heap.
Variable ctx : Context.

(** The state a flush threads through: how often it has looked at the
    context, the executor, and what it has done so far. *)
Record FlushState := {
  clock : nat;
  executor : ES;
  trace : list event
}.

Definition tick (st : FlushState) : FlushState :=
  {| clock := S (clock st); executor := executor st; trace := trace st |}.

Definition emit (ev : event) (st : FlushState) : FlushState :=
  {| clock := clock st; executor := executor st;
     trace := (trace st ++ [ev])%list |}.

(** [schema.Columns()] on the map key; a method call on the nil interface
    panics. *)
Definition key_Columns (schema : option SchemaInterface)
    : outcome (list string) :=
  match schema with
  | Some s => Returns (Columns h s)
  | None => Panics
  end.

(** The assembly loop [for i, request := range requests], from request [i]
    on; [total] is [len(requests)].  The result is the rows from [i] on, or
    the context's error. *)
Fixpoint assemble (schema : option SchemaInterface) (total : nat) (i : nat)
    (requests : list Request) (t : nat)
    : outcome (error + list row) * nat :=
  match requests with
  | [] => (Returns (inr []), t)
  | request :: rest =>
      let check := (10000 <? Z.of_nat total) && (Z.of_nat i mod 1000 =? 0) in
      match (if check then ctx_Err (ctx t) else None) with
      | Some err => (Returns (inl err), S t)
      | None =>
          let t := if check then S t else t in
          let values := GetOrderedValues request in
          match key_Columns schema with
          | Panics => (Panics, t)
          | Returns cols =>
              match assemble schema total (S i) rest t with
              | (Returns (inr data), t') =>
                  (Returns (inr (rowData_of cols values :: data)), t')
              | other => other
              end
          end
      end
  end.

(** The loop [for schema, requests := range schemaGroups] over the entries
    in the order the runtime visits them. *)
Fixpoint process_groups
    (order : list (option SchemaInterface * list Request))
    (st : FlushState) : outcome (option error) * FlushState :=
  match order with
  | [] => (Returns None, st)
  | (schema, requests) :: rest =>
      match ctx_Err (ctx (clock st)) with
      | Some err => (Returns (Some err), tick st)
      | None =>
          let st := tick st in
          match assemble schema (length requests) 0 requests (clock st) with
          | (Panics, t) =>
              (Panics, {| clock := t; executor := executor st;
                          trace := trace st |})
          | (Returns (inl err), t) =>
              (Returns (Some err),
               {| clock := t; executor := executor st; trace := trace st |})
          | (Returns (inr data), t) =>
              let st := {| clock := t; executor := executor st;
                           trace := trace st |} in
              let st := emit (ObserveBatchSize (length requests)) st in
              let st := emit ObserveBatchAssemble st in
              let '(res, es) := ExecuteBatch (executor st) schema data in
              let st := {| clock := clock st; executor := es;
                           trace := (trace st ++
                                     [ExecuteBatchCall schema data res])%list |} in
              match res with
              | Some err => (Returns (Some err), st)
              | None => process_groups rest st
              end
          end
      end
  end.

(** Ranging over a Go map visits every entry once, in an order the runtime
    picks. *)
Definition range_of {K} `{Countable K} {V} (m : gmap K V)
    (order : list (K * V)) : Prop :=
  order ≡ₚ map_to_list m.

Definition start (es : ES) : FlushState :=
  {| clock := 0; executor := es; trace := [] |}.

(** [flushFunc(ctx, batchData)] when the runtime ranges over the groups in
    [order]. *)
Definition flushFunc (order : list (option SchemaInterface * list Request))
    (es : ES) : outcome (option error) * FlushState :=
  process_groups order (start es).

(** The rows of one group: one row dictionary per request, in order.  A
    group under the nil key has no columns to read. *)
Definition rows_of (schema : option SchemaInterface) (requests : list Request)
    : list row :=
  match schema with
  | Some s =>
      List.map (fun r => rowData_of (Columns h s) (GetOrderedValues r)) requests
  | None => []
  end.

(** What a flush over the groups [order] can do: the events it appends and
    how it ends.  It stops at the first group whose context check fails,
    whose assembly fails or panics, or whose [ExecuteBatch] fails. *)
Inductive flush_run :
  list (option SchemaInterface * list Request) -> list event ->
  outcome (option error) -> Prop :=
| run_end : flush_run [] [] (Returns None)
| run_context schema requests rest err :
    flush_run ((schema, requests) :: rest) [] (Returns (Some err))
| run_panic schema requests rest :
    flush_run ((schema, requests) :: rest) [] Panics
| run_failed schema requests rest err :
    flush_run ((schema, requests) :: rest)
      [ObserveBatchSize (length requests); ObserveBatchAssemble;
       ExecuteBatchCall schema (rows_of schema requests) (Some err)]
      (Returns (Some err))
| run_next schema requests rest tr out :
    flush_run rest tr out ->
    flush_run ((schema, requests) :: rest)
      (ObserveBatchSize (length requests) :: ObserveBatchAssemble ::
       ExecuteBatchCall schema (rows_of schema requests) None :: tr)
      out.

End Flush.

(** ** Submit *)

(** The engine as [Submit] sees it: the [closed] flag, which a goroutine
    latches once the lifecycle context is done, the requests sent into the
    pipeline's data channel so far, and what was reported to the metrics
    reporter. *)
Record BatchFlow := {
  closed : bool;
  dataChan : list Request;
  reported : list event
}.

(** What the scheduler decides at the [select]: whether the channel send can
    proceed, which case runs when both are ready, and the length
    [len(dataChan)] read afterwards. *)
Record Select := {
  can_send : bool;
  picks_send : bool;
  queue_len : nat
}.

(** A call has returned, or still waits in the [select]. *)
Inductive call (A : Type) :=
| Returned (a : A)
| Blocked.
Arguments Returned {A} a.
Arguments Blocked {A}.

Definition enqueue (sel : Select) (b : BatchFlow) (request : Request)
    : BatchFlow :=
  {| closed := closed b;
     dataChan := (dataChan b ++ [request])%list;
     reported := (reported b ++
                  [ObserveEnqueueLatency; SetQueueLength (queue_len sel)])%list |}.

(** [BatchFlow.Submit(ctx, request)]; a nil request is [None].  The context
    is observed on entry (observation 0) and at the [select]
    (observation 1). *)
Definition Submit (h : Heap) (sel : Select) (b : BatchFlow) (ctx : Context)
    (request : option Request) : call (option error * BatchFlow) :=
  match ctx_Err (ctx 0%nat) with
  | Some err => Returned (Some err, b)
  | None =>
      if closed b then Returned (Some Canceled, b)
      else
        match request with
        | None => Returned (Some ErrEmptyRequest, b)
        | Some r =>
            match SchemaOf r with
            | None => Returned (Some ErrInvalidSchema, b)
            | Some schema =>
                if (length (Columns h schema) =? 0)%nat
                then Returned (Some ErrMissingColumn, b)
                else if (String.length (Name h schema) =? 0)%nat
                then Returned (Some ErrEmptySchemaName, b)
                else
                  match can_send sel, ctx_Err (ctx 1%nat) with
                  | true, None => Returned (None, enqueue sel b r)
                  | true, Some err =>
                      if picks_send sel
                      then Returned (None, enqueue sel b r)
                      else Returned (Some err, b)
                  | false, Some err => Returned (Some err, b)
                  | false, None => Blocked
                  end
            end
        end
  end.

(** The request is valid for [Submit]: it is not nil, its schema is not nil,
    and the schema has a column and a name. *)
Definition valid_request (h : Heap) (request : option Request) : Prop :=
  exists r schema,
    request = Some r /\ SchemaOf r = Some schema /\
    Columns h schema <> [] /\ Name h schema <> "".

(** ** Processors *)

(** An element of [Operations], a [[]any]: a plain value, or a [RedisCmd]. *)
Inductive operation :=
| OpValue (v : any)
| OpCmd (cmd : list any).

Definition Operations := list operation.

Definition execute_batch_timeout : string := "execute batch timeout".

Module SQLBatchProcessor.

(** [*sql.DB] is outside the package: [ExecContext] is whatever the
    database answers. *)
Record DB := {
  ExecContext : Context -> string -> list operation -> option error
}.

Record t := {
  db : DB;
  timeout : Z
}.

(** [ExecuteOperations(ctx, operations)].  [next] is the allocator's next
    free address, [own_deadline] the timer of the derived context.  The
    context is observed once, by [context.Cause], after [ExecContext]. *)
Definition ExecuteOperations (bp : t) (own_deadline : nat -> bool)
    (next : positive) (ctx : Context) (operations : Operations)
    : option error * positive :=
  let '(ctx, next) :=
    if 0 <? timeout bp
    then let '(cause, next) := errors_New next execute_batch_timeout in
         (WithTimeoutCause ctx own_deadline cause, next)
    else (ctx, next) in
  match operations with
  | [] =>
      let '(e, next) := errors_New next "empty operations" in (Some e, next)
  | OpValue (AString sql) :: args =>
      match ExecContext (db bp) ctx sql args with
      | Some err =>
          if errors_Is err DeadlineExceeded
          then match context_Cause (ctx 0%nat) with
               | Some cause => (Some cause, next)
               | None => (Some err, next)
               end
          else (Some err, next)
      | None => (None, next)
      end
  | _ :: _ =>
      let '(e, next) := errors_New next "invalid operation type" in
      (Some e, next)
  end.

(** The driver behind the processor, called as
    [bp.driver.GenerateInsertSQL(ctx, s, data)]: the statement and its
    arguments, or an error.  The record [t] leaves the driver field out, so
    [GenerateOperations] takes the driver as an argument. *)
Record SQLDriver := {
  GenerateInsertSQL :
    Context -> SQLSchema -> list row -> error + (string * list any)
}.

(** [NewSQLBatchProcessor(db, driver)] and [WithTimeout(timeout)]. *)
Definition NewSQLBatchProcessor (d : DB) : t := {| db := d; timeout := 0 |}.

Definition WithTimeout (bp : t) (d : Z) : t := {| db := db bp; timeout := d |}.

(** [GenerateOperations(ctx, schema, data)]: the type assertion of
    the schema to a pointer to [SQLSchema], which fails for the nil interface and for a
    pointer to [Schema], then the driver; the operations are the statement followed
    by its arguments. *)
Definition GenerateOperations (driver : SQLDriver) (h : Heap) (next : positive)
    (ctx : Context) (schema : option SchemaInterface) (data : list row)
    : (error + Operations) * positive :=
  match schema with
  | Some (PtrSQLSchema p) =>
      match GenerateInsertSQL driver ctx (sqlschema_at h p) data with
      | inl innerErr => (inl innerErr, next)
      | inr (sql, args) =>
          (inr (OpValue (AString sql) :: List.map OpValue args), next)
      end
  | _ =>
      let '(e, next) := errors_New next "schema is not a SQLSchema" in
      (inl e, next)
  end.

End SQLBatchProcessor.

Module RedisBatchProcessor.

(** [*redis.Client] is outside the package: [Exec] is what the pipeline
    answers for the queued commands, one result per command and the error
    of the whole. *)
Record Client := {
  Exec : Context -> list (list any) -> list (option error) * option error
}.

Record t := {
  client : Client;
  timeout : Z
}.

(** The loop [for _, operation := range operations]: one look at the context
    per operation, then [pipeline.Do] for a [RedisCmd]. *)
Fixpoint queue_all (ctx : Context) (i : nat) (operations : Operations)
    (queued : list (list any)) : (error + list (list any)) * nat :=
  match operations with
  | [] => (inr queued, i)
  | operation :: rest =>
      match ctx_Err (ctx i) with
      | Some err => (inl err, S i)
      | None =>
          queue_all ctx (S i) rest
            (match operation with
             | OpCmd cmd => (queued ++ [cmd])%list
             | OpValue _ => queued
             end)
      end
  end.

(** The loop over the results: [err = errors.Join(err, cmd.Err())]. *)
Definition join_results (cmds : list (option error)) (err : option error)
    : option error :=
  fold_left (fun err cmdErr =>
               match cmdErr with
               | Some e => errors_Join err e
               | None => err
               end) cmds err.

Definition ExecuteOperations (rp : t) (own_deadline : nat -> bool)
    (next : positive) (ctx : Context) (operations : Operations)
    : option error * positive :=
  let '(ctx, next) :=
    if 0 <? timeout rp
    then let '(cause, next) := errors_New next execute_batch_timeout in
         (WithTimeoutCause ctx own_deadline cause, next)
    else (ctx, next) in
  match queue_all ctx 0 operations [] with
  | (inl err, _) => (Some err, next)
  | (inr queued, i) =>
      match Exec (client rp) ctx queued with
      | (_, Some err) =>
          if errors_Is err DeadlineExceeded
          then match context_Cause (ctx i) with
               | Some cause => (Some cause, next)
               | None => (Some err, next)
               end
          else (Some err, next)
      | (cmds, None) => (join_results cmds None, next)
      end
  end.

(** The driver behind the processor, called as
    [rp.driver.GenerateCmds(ctx, s, data)]; as for the relational processor
    it is an argument of [GenerateOperations]. *)
Record RedisDriver := {
  GenerateCmds : Context -> Schema -> list row -> error + list (list any)
}.

Definition NewRedisBatchProcessor (c : Client) : t :=
  {| client := c; timeout := 0 |}.

Definition WithTimeout (rp : t) (d : Z) : t :=
  {| client := client rp; timeout := d |}.

(** [GenerateOperations(ctx, schema, data)]: the type assertion of
    the schema to a pointer to [Schema], which fails for the nil interface and for a
    pointer to [SQLSchema], then the driver; one operation per command. *)
Definition GenerateOperations (driver : RedisDriver) (h : Heap) (next : positive)
    (ctx : Context) (schema : option SchemaInterface) (data : list row)
    : (error + Operations) * positive :=
  match schema with
  | Some (PtrSchema p) =>
      match GenerateCmds driver ctx (schema_at h p) data with
      | inl innerErr => (inl innerErr, next)
      | inr cmds => (inr (List.map OpCmd cmds), next)
      end
  | _ =>
      let '(e, next) := errors_New next "schema is not a Schema" in
      (inl e, next)
  end.

End RedisBatchProcessor.

(** The context a processor's [ExecuteOperations] works under: the derived
    one when a timeout is set, the caller's otherwise. *)
Definition processor_context (timeout : Z) (own_deadline : nat -> bool)
    (next : positive) (ctx : Context) : Context :=
  if 0 <? timeout
  then WithTimeoutCause ctx own_deadline (ErrorsNew next execute_batch_timeout)
  else ctx.

(** The operations of a list that are a [RedisCmd], in order. *)
Definition commands_of (operations : Operations) : list (list any) :=
  omap (fun operation =>
          match operation with
          | OpCmd cmd => Some cmd
          | OpValue _ => None
          end) operations.

(** [errors.Is] on a possibly nil error. *)
Definition is_error (err : option error) (target : error) : bool :=
  match err with
  | Some e => errors_Is e target
  | None => false
  end.

(** ** The executor *)

Module Executor.

(** [RetryConfig], with the fields [PipelineConfig.Retry] and the executor's
    tests set. *)
Record RetryConfig := {
  Enabled : bool;
  MaxAttempts : Z;
  BackoffBase : Z;
  MaxBackoff : Z
}.

(** The interface [BatchProcessor] of [processor.go], over a state of the
    processor's own. *)
Record BatchProcessor (PS : Type) := {
  GenerateOperations :
    PS -> SchemaInterface -> list row -> (error + Operations) * PS;
  ExecuteOperations : PS -> Operations -> option error * PS
}.
Arguments GenerateOperations {PS} _ _ _ _.
Arguments ExecuteOperations {PS} _ _ _.

(** What one [ExecuteBatch] does, in order: the in-flight accounting, the
    processor invocations, the error counter, the backoff sleeps and the
    duration observation. *)
Inductive metric :=
| IncInflight
| DecInflight
| Invocation
| IncError (table kind : string)
| Sleep (d : Z)
| ObserveExecuteDuration (table : string) (n : nat) (status : string).

Section Retry.

Context {PS : Type}.
Variable processor : BatchProcessor PS.
Variable classify : error -> bool * string.
Variable retryConfig : RetryConfig.
Variable ConcurrencyLimit : Z.
Variable ctx : Context.
Variable table : string.
Variable schema : SchemaInterface.
Variable rows : list row.

(** Modelled from the spec: the executor's source file is missing.  One
    attempt is "Call Processor: synthesize then execute": an error of the
    synthesis is the attempt's error. *)
Definition invoke (ps : PS) : option error * PS :=
  match GenerateOperations processor ps schema rows with
  | (inl err, ps) => (Some err, ps)
  | (inr operations, ps) => ExecuteOperations processor ps operations
  end.

(** Modelled from the spec: the executor's source file is missing.
    "backoff = min(BackoffBase * 2^(attempt-1), MaxBackoff)". *)
Definition backoff (attempt : Z) : Z :=
  Z.min (BackoffBase retryConfig * 2 ^ (attempt - 1)) (MaxBackoff retryConfig).

(** Modelled from the spec: the executor's source file is missing.  The
    retry state machine of the spec, steps 1 to 5, from attempt [attempt]
    on.  Step 4 ends the call with [final:<reason>] when the error is not
    retryable or [attempt == MaxAttempts]; with [Enabled = false] the retry
    counters stay at zero whatever the processor does, so step 5 is never
    taken.  The sleep of step 5 can be cancelled: the context is observed
    once per sleep (observation [attempt]) and a done context ends the call
    with the context's error; the spec names no counter for that path.  The
    loop has no bound of its own, [fuel] bounds the model. *)
Fixpoint attempts (fuel : nat) (attempt : Z) (ps : PS) (log : list metric)
    : option (option error * PS * list metric) :=
  match fuel with
  | O => None
  | S fuel =>
      let '(result, ps) := invoke ps in
      let log := (log ++ [Invocation])%list in
      match result with
      | None =>
          Some (None, ps,
                (log ++ [ObserveExecuteDuration table (length rows) "success"])%list)
      | Some err =>
          let '(retryable, reason) := classify err in
          if negb retryable || (attempt =? MaxAttempts retryConfig)
             || negb (Enabled retryConfig)
          then Some (Some err, ps,
                     (log ++ [IncError table ("final:" +:+ reason);
                              ObserveExecuteDuration table (length rows) "fail"])%list)
          else
            let log := (log ++ [IncError table ("retry:" +:+ reason);
                                Sleep (backoff attempt)])%list in
            match ctx_Err (ctx (Z.to_nat attempt)) with
            | Some cancelled =>
                Some (Some cancelled, ps,
                      (log ++ [ObserveExecuteDuration table (length rows) "fail"])%list)
            | None => attempts fuel (attempt + 1) ps log
            end
      end
  end.

(** Modelled from the spec: the executor's source file is missing.
    [ExecuteBatch(ctx, schema, rows)]: the semaphore, when
    [ConcurrencyLimit > 0], is acquired subject to the context (observation
    0: done means the context was done before a slot was free); the
    in-flight counter goes up after the acquisition and down before the
    release; the attempts start at 1. *)
Definition ExecuteBatch (fuel : nat) (ps : PS)
    : option (option error * PS * list metric) :=
  match (if 0 <? ConcurrencyLimit then ctx_Err (ctx 0%nat) else None) with
  | Some cancelled => Some (Some cancelled, ps, [])
  | None =>
      match attempts fuel 1 ps [IncInflight] with
      | Some (result, ps, log) => Some (result, ps, (log ++ [DecInflight])%list)
      | None => None
      end
  end.

End Retry.

Definition is_invocation (m : metric) : bool :=
  match m with Invocation => true | _ => false end.

(** An [IncError] whose kind starts with [pre], as the test's reporter
    counts them. *)
Definition is_error_kind (pre : string) (m : metric) : bool :=
  match m with
  | IncError _ kind => String.prefix pre kind
  | _ => false
  end.

Definition count (f : metric -> bool) (log : list metric) : Z :=
  Z.of_nat (length (List.filter f log)).

Definition invocations (log : list metric) : Z := count is_invocation log.
Definition retries (log : list metric) : Z := count (is_error_kind "retry:") log.
Definition finals (log : list metric) : Z := count (is_error_kind "final:") log.

End Executor.

(** ** The relational drivers *)

Module Driver.

(** Modelled from the spec: the drivers' source files are missing.  The
    three well-known backends of the dialect table, and any other one. *)
Inductive dialect := MySQL | PostgreSQL | SQLite | Unknown.

(** [strings.Join(parts, sep)]. *)
Definition join (sep : string) (parts : list string) : string :=
  match parts with
  | [] => ""
  | p :: rest => fold_left (fun acc x => acc +:+ sep +:+ x) rest p
  end.

(** [strconv.Itoa(n)]. *)
Definition decimal (n : nat) : string :=
  NilEmpty.string_of_uint (Nat.to_uint n).

(** Modelled from the spec: the drivers' source files are missing.
    "Placeholder style is backend-idiomatic (positional ? or $n)": the
    placeholder of the argument at position [k], counted from 0. *)
Definition placeholder (d : dialect) (k : nat) : string :=
  match d with
  | PostgreSQL => "$" +:+ decimal (S k)
  | _ => "?"
  end.

(** Modelled from the spec: the drivers' source files are missing.  The
    tuple [(?, ?)] of row [i] and the tuples of all the rows. *)
Definition tuple (d : dialect) (ncols i : nat) : string :=
  "(" +:+ join ", " (List.map (fun j => placeholder d (i * ncols + j)) (seq 0 ncols))
      +:+ ")".

(** Modelled from the spec: the drivers' source files are missing.  The
    tuples of all the rows, "(...), (...)". *)
Definition tuples (d : dialect) (ncols nrows : nat) : string :=
  join ", " (List.map (tuple d ncols) (seq 0 nrows)).

(** Modelled from the spec: the drivers' source files are missing.  The
    assignments "c=..." of an update form, one per column. *)
Definition assignments (cols : list string) (rhs : string -> string) : string :=
  join ", " (List.map (fun c => c +:+ "=" +:+ rhs c) cols).

(** Modelled from the spec: the drivers' source files are missing.  The
    dialect table of the spec.  A strategy other than the three named ones
    is the policy "(none/default)"; an unknown dialect falls back to the
    base insert form; the spec leaves [ReplaceConflict] on PostgreSQL to the
    backend, here the base form; the conflict target of PostgreSQL's update
    form is the first column. *)
Definition statement (d : dialect) (strategy : ConflictStrategy)
    (table : string) (cols : list string) (nrows : nat) : string :=
  let body := table +:+ " (" +:+ join ", " cols +:+ ") VALUES "
                    +:+ tuples d (length cols) nrows in
  let base := "INSERT INTO " +:+ body in
  match d with
  | MySQL =>
      if strategy =? ConflictIgnore then "INSERT IGNORE INTO " +:+ body
      else if strategy =? ConflictReplace then "REPLACE INTO " +:+ body
      else if strategy =? ConflictUpdate
      then base +:+ " ON DUPLICATE KEY UPDATE "
                +:+ assignments cols (fun c => "VALUES(" +:+ c +:+ ")")
      else base
  | PostgreSQL =>
      if strategy =? ConflictIgnore then base +:+ " ON CONFLICT DO NOTHING"
      else if strategy =? ConflictUpdate
      then base +:+ " ON CONFLICT (" +:+ List.hd "" cols +:+ ") DO UPDATE SET "
                +:+ assignments cols (fun c => "EXCLUDED." +:+ c)
      else base
  | SQLite =>
      if strategy =? ConflictIgnore then "INSERT OR IGNORE INTO " +:+ body
      else if strategy =? ConflictReplace then "INSERT OR REPLACE INTO " +:+ body
      else if strategy =? ConflictUpdate
      then base +:+ " ON CONFLICT DO UPDATE SET "
                +:+ assignments cols (fun c => "excluded." +:+ c)
      else base
  | Unknown => base
  end.

(** Modelled from the spec: the drivers' source files are missing.  "Row
    dictionaries are indexed by the schema's column identifiers in declared
    order; values absent from a row are bound as null", one row after the
    other. *)
Definition arguments (cols : list string) (data : list row) : list any :=
  List.concat (List.map (fun r => List.map (map_read r) cols) data).

(** Modelled from the spec: the drivers' source files are missing.
    [GenerateInsertSQL(ctx, schema, rows)]: "Empty rows -> empty operations
    (no error)"; "Context cancellation -> context error"; a zero-column
    schema reaching a driver is a configuration error. *)
Definition GenerateInsertSQL (d : dialect) (ctx : Context) (schema : SQLSchema)
    (data : list row) : error + (string * list any) :=
  match data with
  | [] => inr ("", [])
  | _ :: _ =>
      match ctx_Err (ctx 0%nat) with
      | Some err => inl err
      | None =>
          let cols := columns (embedded schema) in
          match cols with
          | [] => inl ErrMissingColumn
          | _ :: _ =>
              inr (statement d (conflictStrategy (operationConfig schema))
                     (name (embedded schema)) cols (length data),
                   arguments cols data)
          end
      end
  end.

(** [strings.Contains(s, sub)]. *)
Definition contains (s sub : string) : bool :=
  match String.index 0 sub s with
  | Some _ => true
  | None => false
  end.

End Driver.


(** ** Sequences of submits, and what a flush hands over *)

(** One [Submit] call as the engine sees it: the scheduler's decision, the
    caller's context and the request. *)
Record submit_call := {
  call_select : Select;
  call_ctx : Context;
  call_request : option Request
}.

(** The engine after the calls of [calls], one after the other.  A call that
    still waits in its [select] has changed nothing. *)
Fixpoint Submits (h : Heap) (b : BatchFlow) (calls : list submit_call)
    : BatchFlow :=
  match calls with
  | [] => b
  | c :: rest =>
      match Submit h (call_select c) b (call_ctx c) (call_request c) with
      | Returned (_, b') => Submits h b' rest
      | Blocked => Submits h b rest
      end
  end.

(** The requests of the calls that returned nil, in call order. *)
Fixpoint accepted (h : Heap) (b : BatchFlow) (calls : list submit_call)
    : list Request :=
  match calls with
  | [] => []
  | c :: rest =>
      match Submit h (call_select c) b (call_ctx c) (call_request c),
            call_request c with
      | Returned (None, b'), Some r => r :: accepted h b' rest
      | Returned (_, b'), _ => accepted h b' rest
      | Blocked, _ => accepted h b rest
      end
  end.

(** The number of rows a trace handed to [ExecuteBatch], over all calls. *)
Fixpoint executed_rows (tr : list event) : nat :=
  match tr with
  | [] => 0
  | ExecuteBatchCall _ data _ :: rest => length data + executed_rows rest
  | _ :: rest => executed_rows rest
  end.

(** The three events of one processed group. *)
Definition group_events (schema : option SchemaInterface) (data : list row)
    (result : option error) : list event :=
  [ObserveBatchSize (length data); ObserveBatchAssemble;
   ExecuteBatchCall schema data result].

(** The number of positions [k] with [i <= k < i + n] that the assembly loop
    of a large group checks the context at: the multiples of 1000. *)
Definition checks_between (i n : nat) : Z :=
  (Z.of_nat (i + n) + 999) / 1000 - (Z.of_nat i + 999) / 1000.

(** ** The pipeline's metrics hook *)

Module pipelineMetricsAdapter.

(** A non-nil [MetricsReporter] as the adapter uses it: whether its dynamic
    type also implements [PipelineMetricsReporter]. *)
Record MetricsReporter := { implements_pipeline : bool }.

Record t := { reporter : option MetricsReporter }.

(** What the adapter reports: [ObserveBatchSize(n)] and
    [IncDropped(reason)]. *)
Inductive report :=
| ReportBatchSize (n : Z)
| ReportDropped (reason : string).

(** [pmr()]: the reporter as a [PipelineMetricsReporter], and whether the
    type assertion held. *)
Definition pmr (a : t) : option MetricsReporter * bool :=
  match reporter a with
  | None => (None, false)
  | Some r => if implements_pipeline r then (Some r, true) else (None, false)
  end.

Definition Flush (a : t) (items : Z) (duration : Z) : list report :=
  match reporter a with
  | Some _ => if 0 <? items then [ReportBatchSize items] else []
  | None => []
  end.

Definition Error (a : t) (err : error) : list report := [].

Definition ErrorDropped (a : t) : list report :=
  match pmr a with
  | (Some _, true) => [ReportDropped "error_chan_full"]
  | _ => []
  end.

(** The calls the pipeline makes on its hook. *)
Inductive hook :=
| OnFlush (items duration : Z)
| OnError (err : error)
| OnErrorDropped.

Definition dispatch (a : t) (hk : hook) : list report :=
  match hk with
  | OnFlush items duration => Flush a items duration
  | OnError err => Error a err
  | OnErrorDropped => ErrorDropped a
  end.

(** Everything the adapter reports over a sequence of hook calls. *)
Definition run (a : t) (hooks : list hook) : list report :=
  List.concat (List.map (dispatch a) hooks).

(** [attachPipelineMetrics(p, r)]: the hook the pipeline has afterwards,
    [previous] being the one it had; nothing is attached to a nil pipeline
    or for a nil reporter. *)
Definition attachPipelineMetrics (pipeline_is_nil : bool) (previous : option t)
    (r : option MetricsReporter) : option t :=
  if pipeline_is_nil then previous
  else match r with
       | None => previous
       | Some _ => Some {| reporter := r |}
       end.

Definition is_batch_size (r : report) : bool :=
  match r with ReportBatchSize _ => true | ReportDropped _ => false end.

Definition is_dropped (hk : hook) : bool :=
  match hk with OnErrorDropped => true | _ => false end.

Definition flushed_items (hk : hook) : option Z :=
  match hk with
  | OnFlush items _ => if 0 <? items then Some items else None
  | _ => None
  end.

End pipelineMetricsAdapter.

(** ** The counting reporter of the executor's tests *)

Module retryMetrics.

(** [int32] arithmetic wraps around. *)
Definition wrap32 (z : Z) : Z := (z + 2 ^ 31) mod 2 ^ 32 - 2 ^ 31.

Record t := { retry : Z; final : Z; inflight : Z }.

(** [len(kind) >= 6 && kind[:6] == pre]. *)
Definition first6_is (kind pre : string) : bool :=
  (6 <=? String.length kind)%nat && String.eqb (String.substring 0 6 kind) pre.

Definition IncError (m : t) (table kind : string) : t :=
  if first6_is kind "retry:"
  then {| retry := wrap32 (retry m + 1); final := final m; inflight := inflight m |}
  else if first6_is kind "final:"
  then {| retry := retry m; final := wrap32 (final m + 1); inflight := inflight m |}
  else m.

Definition IncInflight (m : t) : t :=
  {| retry := retry m; final := final m; inflight := wrap32 (inflight m + 1) |}.

Definition DecInflight (m : t) : t :=
  {| retry := retry m; final := final m; inflight := wrap32 (inflight m + -1) |}.

(** The calls an executor makes on the reporter that change it. *)
Inductive reporter_call :=
| CallIncError (table kind : string)
| CallIncInflight
| CallDecInflight.

Definition apply_call (m : t) (c : reporter_call) : t :=
  match c with
  | CallIncError table kind => IncError m table kind
  | CallIncInflight => IncInflight m
  | CallDecInflight => DecInflight m
  end.

Definition after (m : t) (calls : list reporter_call) : t :=
  fold_left apply_call calls m.

Definition zero : t := {| retry := 0; final := 0; inflight := 0 |}.

(** How many calls of a sequence are an [IncError] with a kind that starts
    with [pre], an [IncInflight], a [DecInflight]. *)
Definition errors_with (pre : string) (calls : list reporter_call) : Z :=
  Z.of_nat (length (List.filter
    (fun c => match c with
              | CallIncError _ kind => String.prefix pre kind
              | _ => false
              end) calls)).

Definition increments (calls : list reporter_call) : Z :=
  Z.of_nat (length (List.filter
    (fun c => match c with CallIncInflight => true | _ => false end) calls)).

Definition decrements (calls : list reporter_call) : Z :=
  Z.of_nat (length (List.filter
    (fun c => match c with CallDecInflight => true | _ => false end) calls)).

End retryMetrics.

(** ** The integration tests' report helpers *)

(** [float64] and what the helpers do with it; floating-point arithmetic
    and [fmt.Sprintf] are outside the model and taken as they come. *)
Record FloatOps := {
  float64 : Type;
  f_zero : float64;
  f_hundred : float64;
  of_int64 : Z -> float64;
  of_int : Z -> float64;
  f_add : float64 -> float64 -> float64;
  f_mul : float64 -> float64 -> float64;
  f_div : float64 -> float64 -> float64;
  f_gt : float64 -> float64 -> bool;
  Sprintf_excess : Z -> string;
  Sprintf_loss : Z -> float64 -> string;
  Sprintf_loss_note : float64 -> string
}.

(** [int64] and [int] arithmetic wraps around. *)
Definition wrap64 (z : Z) : Z := (z + 2 ^ 63) mod 2 ^ 64 - 2 ^ 63.

Module DataIntegrity.

(** The four results of [calculateDataIntegrity]. *)
Record t (F : FloatOps) := {
  rate : float64 F;
  status : string;
  rpsValid : bool;
  rpsNote : string
}.
Arguments rate {F} _.
Arguments status {F} _.
Arguments rpsValid {F} _.
Arguments rpsNote {F} _.

End DataIntegrity.

Definition calculateDataIntegrity (F : FloatOps) (submitted actual : Z)
    : DataIntegrity.t F :=
  if actual <? 0
  then {| DataIntegrity.rate := f_zero F;
          DataIntegrity.status := "❓ 无法验证";
          DataIntegrity.rpsValid := false;
          DataIntegrity.rpsNote := "无法获取实际记录数，RPS无效" |}
  else if submitted =? 0
  then {| DataIntegrity.rate := f_zero F;
          DataIntegrity.status := "❌ 无提交记录";
          DataIntegrity.rpsValid := false;
          DataIntegrity.rpsNote := "无提交记录，RPS无效" |}
  else
    let rate := f_mul F (f_div F (of_int64 F actual) (of_int64 F submitted))
                  (f_hundred F) in
    if actual =? submitted
    then {| DataIntegrity.rate := f_hundred F;
            DataIntegrity.status := "✅ 完全一致";
            DataIntegrity.rpsValid := true;
            DataIntegrity.rpsNote := "数据完整性100%，RPS有效" |}
    else if submitted <? actual
    then {| DataIntegrity.rate := rate;
            DataIntegrity.status := Sprintf_excess F (wrap64 (actual - submitted));
            DataIntegrity.rpsValid := false;
            DataIntegrity.rpsNote := "数据超出预期，RPS无效" |}
    else
      let lossCount := wrap64 (submitted - actual) in
      let lossRate := f_mul F (f_div F (of_int64 F lossCount) (of_int64 F submitted))
                        (f_hundred F) in
      {| DataIntegrity.rate := rate;
         DataIntegrity.status := Sprintf_loss F lossCount lossRate;
         DataIntegrity.rpsValid := false;
         DataIntegrity.rpsNote := Sprintf_loss_note F lossRate |}.

(** [TestResult], the fields [generateSummary] reads. *)
Record TestResult (F : FloatOps) := {
  Success : bool;
  TotalRecords : Z;
  RecordsPerSecond : float64 F;
  RPSValid : bool
}.
Arguments Success {F} _.
Arguments TotalRecords {F} _.
Arguments RecordsPerSecond {F} _.
Arguments RPSValid {F} _.

Module TestSummary.

Record t (F : FloatOps) := {
  TotalTests : Z;
  PassedTests : Z;
  FailedTests : Z;
  TotalRecords : Z;
  AverageRPS : float64 F;
  MaxRPS : float64 F;
  TotalDuration : string
}.
Arguments TotalTests {F} _.
Arguments PassedTests {F} _.
Arguments FailedTests {F} _.
Arguments TotalRecords {F} _.
Arguments AverageRPS {F} _.
Arguments MaxRPS {F} _.
Arguments TotalDuration {F} _.

End TestSummary.

(** The variables of [generateSummary]'s loop. *)
Record summary_state (F : FloatOps) := {
  passed : Z;
  failed : Z;
  totalRecords : Z;
  validRPSCount : Z;
  totalValidRPS : float64 F;
  maxRPS : float64 F
}.
Arguments passed {F} _.
Arguments failed {F} _.
Arguments totalRecords {F} _.
Arguments validRPSCount {F} _.
Arguments totalValidRPS {F} _.
Arguments maxRPS {F} _.

Definition summary_step {F : FloatOps} (s : summary_state F)
    (result : TestResult F) : summary_state F :=
  {| passed := if Success result then wrap64 (passed s + 1) else passed s;
     failed := if Success result then failed s else wrap64 (failed s + 1);
     totalRecords := wrap64 (totalRecords s + TotalRecords result);
     validRPSCount :=
       if RPSValid result then wrap64 (validRPSCount s + 1) else validRPSCount s;
     totalValidRPS :=
       if RPSValid result
       then f_add F (totalValidRPS s) (RecordsPerSecond result)
       else totalValidRPS s;
     maxRPS :=
       if RPSValid result && f_gt F (RecordsPerSecond result) (maxRPS s)
       then RecordsPerSecond result
       else maxRPS s |}.

(** [generateSummary(results, totalDuration)]; [duration] is
    [totalDuration.String()]. *)
Definition generateSummary (F : FloatOps) (results : list (TestResult F))
    (duration : string) : TestSummary.t F :=
  let s := fold_left summary_step results
             {| passed := 0; failed := 0; totalRecords := 0; validRPSCount := 0;
                totalValidRPS := f_zero F; maxRPS := f_zero F |} in
  {| TestSummary.TotalTests := Z.of_nat (length results);
     TestSummary.PassedTests := passed s;
     TestSummary.FailedTests := failed s;
     TestSummary.TotalRecords := totalRecords s;
     TestSummary.AverageRPS :=
       if 0 <? validRPSCount s
       then f_div F (totalValidRPS s) (of_int F (validRPSCount s))
       else f_zero F;
     TestSummary.MaxRPS := maxRPS s;
     TestSummary.TotalDuration := duration |}.

(** ** Concrete inputs *)

Module Fixture.

(** [schema1] and [schema2] of [TestSchemaGrouping]: two instances with the
    same name, policy and columns, at the addresses 1 and 2; the schema
    "users" of the driver tests at address 3. *)
Definition test_table : SQLSchema :=
  NewSQLSchema "test_table" ConflictIgnoreOperationConfig ["id"; "name"].

Definition users : SQLSchema :=
  NewSQLSchema "users" ConflictIgnoreOperationConfig ["id"; "name"].

Definition heap : Heap :=
  {| schema_at := fun _ => NewSchema "" [];
     sqlschema_at := fun p =>
       if (p =? 3)%positive then users else test_table |}.

Definition schema1 : SchemaInterface := PtrSQLSchema 1.
Definition schema2 : SchemaInterface := PtrSQLSchema 2.
Definition users_ptr : SchemaInterface := PtrSQLSchema 3.

Definition request (s : SchemaInterface) (values : list any) : Request :=
  {| SchemaOf := Some s; GetOrderedValues := values |}.

(** The batch of [TestSchemaGrouping], three requests per instance. *)
Definition grouping_batch : list Request :=
  [request schema1 [AInt 0; AString "name1_0"];
   request schema2 [AInt 10; AString "name2_0"];
   request schema1 [AInt 1; AString "name1_1"];
   request schema2 [AInt 11; AString "name2_1"];
   request schema1 [AInt 2; AString "name1_2"];
   request schema2 [AInt 12; AString "name2_2"]].

(** A request whose ordered values stop before the last column. *)
Definition short_request : Request := request users_ptr [AInt 1].

(** An executor that records nothing and succeeds, and one that counts its
    calls and fails from the call numbered [n] on. *)
Definition ok_executor (es : unit) (schema : option SchemaInterface)
    (data : list row) : option error * unit := (None, tt).

Definition failing_executor (n : nat) (calls : nat)
    (schema : option SchemaInterface) (data : list row) : option error * nat :=
  (if (n <=? calls)%nat then Some (ErrorsNew 1 "mock execution failed") else None,
   S calls).

(** Engines, scheduler decisions and contexts for [Submit]. *)
Definition open_engine : BatchFlow :=
  {| closed := false; dataChan := []; reported := [] |}.

Definition closed_engine : BatchFlow :=
  {| closed := true; dataChan := []; reported := [] |}.

Definition ready : Select :=
  {| can_send := true; picks_send := true; queue_len := 1 |}.

Definition cancelled : Context := fun _ => Done CtxCanceled Canceled.

Definition expired : Context :=
  fun _ => Done CtxDeadlineExceeded DeadlineExceeded.

(** A database whose call runs into a deadline, as drivers report it: the
    context's error, wrapped.  The processor's timeout is 5 seconds. *)
Definition slow_db : SQLBatchProcessor.DB :=
  {| SQLBatchProcessor.ExecContext := fun _ _ _ =>
       Some (Wrapped "exec" DeadlineExceeded) |}.

Definition slow_sql : SQLBatchProcessor.t :=
  {| SQLBatchProcessor.db := slow_db;
     SQLBatchProcessor.timeout := 5000000000 |}.

Definition insert_users_sql : string :=
  "INSERT IGNORE INTO users (id, name) VALUES (?, ?)".

Definition insert_users_args : list operation :=
  [OpValue (AInt 1); OpValue (AString "a")].

Definition insert_users : Operations :=
  OpValue (AString insert_users_sql) :: insert_users_args.

(** A Redis client whose pipeline succeeds for every command; for no
    command at all it has no result and no error. *)
Definition ok_client : RedisBatchProcessor.Client :=
  {| RedisBatchProcessor.Exec := fun _ queued =>
       (List.map (fun _ => None) queued, None) |}.

Definition ok_redis : RedisBatchProcessor.t :=
  {| RedisBatchProcessor.client := ok_client;
     RedisBatchProcessor.timeout := 0 |}.

Definition timed_redis : RedisBatchProcessor.t :=
  {| RedisBatchProcessor.client := ok_client;
     RedisBatchProcessor.timeout := 5000000000 |}.

Definition ok_sql : SQLBatchProcessor.t :=
  {| SQLBatchProcessor.db :=
       {| SQLBatchProcessor.ExecContext := fun _ _ _ => None |};
     SQLBatchProcessor.timeout := 0 |}.

Definition timer_fired : nat -> bool := fun _ => true.
Definition timer_pending : nat -> bool := fun _ => false.

(** [alwaysRetryProcessor] of the executor's tests: the synthesis gives no
    operation, the execution fails with a new error each time.  Its state
    is the allocator's next free address. *)
Definition alwaysRetryProcessor : Executor.BatchProcessor positive :=
  {| Executor.GenerateOperations := fun next _ _ => (inr [], next);
     Executor.ExecuteOperations := fun next _ =>
       let '(err, next) := errors_New next "timeout: temporary network failure" in
       (Some err, next) |}.

(** A classifier for the tests: context errors are final, an error whose
    text mentions a timeout can be retried. *)
Definition timeout_classifier (err : error) : bool * string :=
  match err with
  | Canceled | DeadlineExceeded => (false, "context")
  | ErrorsNew _ msg =>
      if Driver.contains msg "timeout" then (true, "timeout")
      else (false, "non_retryable")
  | _ => (false, "non_retryable")
  end.

(** The retry configuration of [TestThrottledExecutor_Retry_FinalFailure],
    durations in nanoseconds, and the same with the retries switched off. *)
Definition retry_twice : Executor.RetryConfig :=
  {| Executor.Enabled := true; Executor.MaxAttempts := 2;
     Executor.BackoffBase := 1000000; Executor.MaxBackoff := 2000000 |}.

Definition retry_disabled : Executor.RetryConfig :=
  {| Executor.Enabled := false; Executor.MaxAttempts := 2;
     Executor.BackoffBase := 1000000; Executor.MaxBackoff := 2000000 |}.

Definition one_row : list row := [({["id" := AInt 1]} : row)].

(** The rows of the driver tests. *)
Definition two_rows : list row :=
  [({["id" := AInt 1; "name" := AString "a"]} : row);
   ({["id" := AInt 2; "name" := AString "b"]} : row)].

(** A run of [Submit] calls on the open engine: a valid request that is
    enqueued, a nil request, a valid request under a cancelled context, a
    request whose schema has no name, and a second valid request. *)
Definition call (ctx : Context) (request : option Request) : submit_call :=
  {| call_select := ready; call_ctx := ctx; call_request := request |}.

Definition nameless : Request := request (PtrSchema 1) [AInt 7].

Definition some_calls : list submit_call :=
  [call background (Some (request users_ptr [AInt 1; AString "a"]));
   call background None;
   call cancelled (Some (request users_ptr [AInt 2; AString "b"]));
   call background (Some nameless);
   call background (Some (request schema1 [AInt 3; AString "c"]))].

(** Drivers for the processors: the MySQL dialect, and a key-value driver
    that sets one key per row. *)
Definition mysql_driver : SQLBatchProcessor.SQLDriver :=
  {| SQLBatchProcessor.GenerateInsertSQL :=
       Driver.GenerateInsertSQL Driver.MySQL |}.

Definition set_driver : RedisBatchProcessor.RedisDriver :=
  {| RedisBatchProcessor.GenerateCmds := fun _ s data =>
       inr (List.map (fun r => [AString "SET"; map_read r "id"; map_read r "name"])
              data) |}.

(** A client whose pipeline reports an error for the second command. *)
Definition second_fails : RedisBatchProcessor.Client :=
  {| RedisBatchProcessor.Exec := fun _ queued =>
       (imap (fun i _ => if (i =? 1)%nat then Some (ErrorsNew 1 "WRONGTYPE") else None)
          queued, None) |}.

Definition failing_redis : RedisBatchProcessor.t :=
  {| RedisBatchProcessor.client := second_fails;
     RedisBatchProcessor.timeout := 0 |}.

Definition mixed_operations : Operations :=
  [OpCmd [AString "SET"; AString "a"; AInt 1];
   OpValue (AString "not a command");
   OpCmd [AString "SET"; AString "b"; AInt 2]].

(** A context that is cancelled from its second observation on. *)
Definition cancelled_later : Context :=
  fun t => if (t <? 1)%nat then Live else Done CtxCanceled Canceled.

(** The reporter calls of one [ExecuteBatch] with one retry. *)
Definition reporter_calls : list retryMetrics.reporter_call :=
  [retryMetrics.CallIncInflight;
   retryMetrics.CallIncError "users" "retry:timeout";
   retryMetrics.CallIncError "users" "final:timeout";
   retryMetrics.CallIncError "users" "oops";
   retryMetrics.CallDecInflight].

(** Exact integers in the place of floats, for running the report
    helpers. *)
Definition integer_floats : FloatOps :=
  {| float64 := Z; f_zero := 0; f_hundred := 100;
     of_int64 := fun z => z; of_int := fun z => z;
     f_add := Z.add; f_mul := Z.mul; f_div := Z.div; f_gt := Z.gtb;
     Sprintf_excess := fun _ => ""; Sprintf_loss := fun _ _ => "";
     Sprintf_loss_note := fun _ => "" |}.

Definition two_results : list (TestResult integer_floats) :=
  [Build_TestResult integer_floats true 1000 500 true;
   Build_TestResult integer_floats false 10 900 false].

End Fixture.
(** * Properties *)

(** ** Row dictionaries *)

Section RowFacts.

Implicit Types (cols : list string) (values : list any) (m : row).




(** A column that occurs twice keeps the value of its last position. *)
Example rowData_of_duplicate :
  rowData_of ["a"; "a"] [AInt 1; AInt 2] !! "a" = Some (AInt 2).
Proof. reflexivity. Qed.

End RowFacts.

(** ** Grouping by schema *)

Section GroupFacts.

Implicit Types (batchData : list Request) (k : option SchemaInterface).

Lemma fold_add_request_lookup batchData k
    (groups : gmap (option SchemaInterface) (list Request)) :
  fold_left add_request batchData groups !! k =
    match filter (fun r => SchemaOf r = k) batchData with
    | [] => groups !! k
    | g => Some (default [] (groups !! k) ++ g)%list
    end.
Proof.
  revert groups. induction batchData as [|r l IH]; intros groups; simpl.
  - reflexivity.
  - rewrite IH. unfold add_request at 1 2.
    rewrite filter_cons. destruct (decide (SchemaOf r = k)) as [->|Hne].
    + rewrite lookup_insert_eq. simpl.
      destruct (filter _ l) as [|x g]; [reflexivity|].
      rewrite <- app_assoc. reflexivity.
    + rewrite lookup_insert_ne by assumption. reflexivity.
Qed.

(** The group of a key is the sub-list of the batch with that key, in batch
    order; a key no request carries has no group. *)
Lemma schemaGroups_lookup batchData k :
  schemaGroups batchData !! k =
    match filter (fun r => SchemaOf r = k) batchData with
    | [] => None
    | g => Some g
    end.
Proof.
  unfold schemaGroups. rewrite fold_add_request_lookup, lookup_empty.
  destruct (filter _ batchData); reflexivity.
Qed.

Lemma schemaGroups_Some batchData k g :
  schemaGroups batchData !! k = Some g ->
  g = filter (fun r => SchemaOf r = k) batchData /\ g <> [].
Proof.
  rewrite schemaGroups_lookup.
  destruct (filter _ batchData) eqn:E; [discriminate|].
  intros [= <-]. split; [reflexivity | discriminate].
Qed.

Lemma range_of_elem batchData order k g :
  range_of (schemaGroups batchData) order ->
  (k, g) ∈ order <-> schemaGroups batchData !! k = Some g.
Proof.
  unfold range_of. intros Hperm. rewrite Hperm.
  apply elem_of_map_to_list.
Qed.

End GroupFacts.

(** ** The flush function *)

Section FlushFacts.

Context {ES : Type}.
Variable ExecuteBatch :
  ES -> option SchemaInterface -> list row -> option error * ES.
Variable h : Heap.
Variable ctx : Context.

Lemma assemble_rows schema total i requests t data t' :
  assemble h ctx schema total i requests t = (Returns (inr data), t') ->
  data = rows_of h schema requests.
Proof.
  revert i t data t'.
  induction requests as [|r rest IH]; intros i t data t' H; simpl in H.
  - injection H as <- _. destruct schema; reflexivity.
  - destruct (if _ && _ then ctx_Err (ctx t) else None); [discriminate|].
    destruct schema as [s|]; simpl in H; [|discriminate].
    destruct (assemble h ctx (Some s) total (S i) rest _) as [[[e|d]|] t2] eqn:E;
      try discriminate.
    injection H as <- _. apply IH in E. simpl in *. congruence.
Qed.

(** The flush function refines [flush_run]: what it appends to the trace and
    how it ends is one of the runs the relation describes. *)
Lemma process_groups_run order st :
  exists tr,
    trace (process_groups ExecuteBatch h ctx order st).2 = (trace st ++ tr)%list
    /\ flush_run h order tr (process_groups ExecuteBatch h ctx order st).1.
Proof.
  revert st. induction order as [|[schema requests] rest IH]; intros st; simpl.
  - exists []. rewrite app_nil_r. split; [reflexivity | constructor].
  - destruct (ctx_Err (ctx (clock st))) as [err|].
    { exists []. rewrite app_nil_r. split; [reflexivity | constructor]. }
    destruct (assemble h ctx schema (length requests) 0 requests _)
      as [[[err|data]|] t] eqn:E; simpl.
    + exists []. rewrite app_nil_r. split; [reflexivity | constructor].
    + apply assemble_rows in E as ->.
      destruct (ExecuteBatch (executor st) schema (rows_of h schema requests))
        as [[err|] es]; simpl.
      * eexists. split; [|apply run_failed].
        rewrite <- !app_assoc. reflexivity.
      * match goal with |- context [process_groups _ _ _ rest ?s] =>
          destruct (IH s) as (tr & Htr & Hrun) end.
        eexists. split; [|apply run_next; exact Hrun].
        rewrite Htr. simpl. rewrite <- !app_assoc. reflexivity.
    + exists []. rewrite app_nil_r. split; [reflexivity | constructor].
Qed.

Lemma flushFunc_run order es :
  flush_run h order (trace (flushFunc ExecuteBatch h ctx order es).2)
    (flushFunc ExecuteBatch h ctx order es).1.
Proof.
  unfold flushFunc.
  destruct (process_groups_run order (start es)) as (tr & Htr & Hrun).
  rewrite Htr. exact Hrun.
Qed.


(** A failed [ExecuteBatch] call is the last event of a run, and its error
    is what the run returns. *)
Lemma flush_run_failed order tr out pre schema data err post :
  flush_run h order tr out ->
  tr = (pre ++ ExecuteBatchCall schema data (Some err) :: post)%list ->
  post = [] /\ out = Returns (Some err).
Proof.
  intros Hrun. revert pre.
  induction Hrun as [| | | s rq rest e | s rq rest tr out Hrun IH]; intros pre Heq.
  - destruct pre; discriminate.
  - destruct pre; discriminate.
  - destruct pre; discriminate.
  - destruct pre as [|a [|b [|c pre]]]; simplify_eq/=.
    + split; reflexivity.
    + destruct pre; discriminate.
  - destruct pre as [|a [|b [|c pre]]]; simplify_eq/=.
    apply (IH pre). reflexivity.
Qed.

(** A run that returns nil has called [ExecuteBatch] once for every group,
    in the order of the range, and every call returned nil. *)
Lemma flush_run_nil order tr :
  flush_run h order tr (Returns None) ->
  List.filter (fun ev => match ev with ExecuteBatchCall _ _ _ => true | _ => false end) tr
  = List.map (fun g => ExecuteBatchCall g.1 (rows_of h g.1 g.2) None) order.
Proof.
  remember (Returns None) as out eqn:Hout. intros Hrun.
  induction Hrun as [| | | s rq rest e | s rq rest tr out Hrun IH];
    try discriminate.
  - reflexivity.
  - simpl. rewrite (IH Hout). reflexivity.
Qed.

End FlushFacts.

(** ** The engine: rows, grouping and errors of one flush *)

Section EngineClaims.

Context {ES : Type}.
Variable ExecuteBatch :
  ES -> option SchemaInterface -> list row -> option error * ES.
Variable h : Heap.
Variable ctx : Context.


(** C6.  In one flush over the schema groups of a batch, an [ExecuteBatch]
    call that returns an error is the last thing the flush does, no further
    group is processed, and the flush returns that error; and when the flush
    returns nil, [ExecuteBatch] was called for every schema group of the
    batch and every call returned nil. *)
Theorem flush_stops_at_first_error batchData order es :
  range_of (schemaGroups batchData) order ->
  (forall pre schema data err post,
     trace (flushFunc ExecuteBatch h ctx order es).2
       = (pre ++ ExecuteBatchCall schema data (Some err) :: post)%list ->
     post = [] /\ (flushFunc ExecuteBatch h ctx order es).1 = Returns (Some err))
  /\
  ((flushFunc ExecuteBatch h ctx order es).1 = Returns None ->
   (forall schema requests,
      schemaGroups batchData !! schema = Some requests ->
      ExecuteBatchCall schema (rows_of h schema requests) None
        ∈ trace (flushFunc ExecuteBatch h ctx order es).2)
   /\
   (forall schema data res,
      ExecuteBatchCall schema data res
        ∈ trace (flushFunc ExecuteBatch h ctx order es).2 ->
      res = None)).
Proof.
  intros Hrange. pose proof (flushFunc_run ExecuteBatch h ctx order es) as Hrun.
  split.
  - intros pre schema data err post Heq.
    exact (flush_run_failed h _ _ _ _ _ _ _ _ Hrun Heq).
  - intros Hnil. rewrite Hnil in Hrun. apply flush_run_nil in Hrun.
    split.
    + intros schema requests Hgroup.
      apply (range_of_elem batchData order) in Hgroup; [|assumption].
      assert (ExecuteBatchCall schema (rows_of h schema requests) None
              ∈ List.map (fun g => ExecuteBatchCall g.1 (rows_of h g.1 g.2) None) order)
        as Hin.
      { apply list_elem_of_In, in_map_iff. exists (schema, requests).
        split; [reflexivity | apply list_elem_of_In; assumption]. }
      rewrite <- Hrun in Hin.
      apply list_elem_of_In, filter_In in Hin as [Hin _].
      apply list_elem_of_In. exact Hin.
    + intros schema data res Hin.
      assert (ExecuteBatchCall schema data res
              ∈ List.map (fun g => ExecuteBatchCall g.1 (rows_of h g.1 g.2) None) order)
        as Hin'.
      { rewrite <- Hrun. apply list_elem_of_In, filter_In.
        split; [apply list_elem_of_In; assumption | reflexivity]. }
      apply list_elem_of_In, in_map_iff in Hin' as (g & Heq & _).
      congruence.
Qed.

End EngineClaims.

(** C8.  For two requests of a batch, being in one group of the flush's
    partition, and so in one [ExecuteBatch] call, is the same as referring
    to one schema instance: the group of a request is the sub-list of the
    batch, in batch order, of the requests whose schema is the same
    interface value, and two instances at different addresses are different
    keys whatever the heap holds there. *)
Theorem schemaGroups_by_identity batchData r1 r2 :
  r1 ∈ batchData -> r2 ∈ batchData ->
  ((exists k g, schemaGroups batchData !! k = Some g /\ r1 ∈ g /\ r2 ∈ g)
   <-> SchemaOf r1 = SchemaOf r2)
  /\ schemaGroups batchData !! SchemaOf r1
     = Some (filter (fun r => SchemaOf r = SchemaOf r1) batchData)
  /\ (forall p1 p2, p1 <> p2 ->
      SchemaOf r1 = Some (PtrSQLSchema p1) ->
      SchemaOf r2 = Some (PtrSQLSchema p2) ->
      ~ exists k g, schemaGroups batchData !! k = Some g /\ r1 ∈ g /\ r2 ∈ g).
Proof.
  intros H1 H2.
  assert (forall k g r, schemaGroups batchData !! k = Some g -> r ∈ g ->
                        SchemaOf r = k) as Hkey.
  { intros k g r Hg Hr. apply schemaGroups_Some in Hg as [-> _].
    apply list_elem_of_filter in Hr as [Hr _]. exact Hr. }
  assert (forall r, r ∈ batchData ->
            schemaGroups batchData !! SchemaOf r
            = Some (filter (fun x => SchemaOf x = SchemaOf r) batchData)) as Hgroup.
  { intros r Hr. rewrite schemaGroups_lookup.
    destruct (filter _ batchData) as [|x g] eqn:E; [|reflexivity].
    assert (r ∈ filter (fun x => SchemaOf x = SchemaOf r) batchData) as Hin
      by (apply list_elem_of_filter; split; [reflexivity | assumption]).
    rewrite E in Hin. inversion Hin. }
  split; [split|split].
  - intros (k & g & Hg & Hr1 & Hr2).
    rewrite (Hkey _ _ _ Hg Hr1), (Hkey _ _ _ Hg Hr2). reflexivity.
  - intros Heq. exists (SchemaOf r1), (filter (fun x => SchemaOf x = SchemaOf r1) batchData).
    split; [apply Hgroup; assumption|].
    split; apply list_elem_of_filter; split; auto.
  - apply Hgroup; assumption.
  - intros p1 p2 Hne Hs1 Hs2 (k & g & Hg & Hr1 & Hr2).
    apply Hne. pose proof (Hkey _ _ _ Hg Hr1). pose proof (Hkey _ _ _ Hg Hr2).
    congruence.
Qed.

Section EngineExamples.

Import Fixture.

Let grouping_order := map_to_list (schemaGroups grouping_batch).



Lemma flush_stops_at_first_error_witness :
  range_of (schemaGroups grouping_batch) grouping_order /\
  (exists schema data,
     trace (flushFunc (failing_executor 0) heap background grouping_order 0%nat).2
     = [ObserveBatchSize 3; ObserveBatchAssemble;
        ExecuteBatchCall schema data (Some (ErrorsNew 1 "mock execution failed"))]) /\
  (flushFunc (failing_executor 0) heap background grouping_order 0%nat).1
  = Returns (Some (ErrorsNew 1 "mock execution failed")).
Proof.
  assert (range_of (schemaGroups grouping_batch) grouping_order) as Hrange
    by (unfold range_of; reflexivity).
  assert (exists schema data,
     trace (flushFunc (failing_executor 0) heap background grouping_order 0%nat).2
     = [ObserveBatchSize 3; ObserveBatchAssemble;
        ExecuteBatchCall schema data (Some (ErrorsNew 1 "mock execution failed"))])
    as Htrace by (vm_compute; eexists; eexists; reflexivity).
  split; [exact Hrange|]. split; [exact Htrace|].
  destruct Htrace as (schema & data & Htrace).
  exact (proj2 (proj1 (flush_stops_at_first_error (failing_executor 0) heap
                         background grouping_batch grouping_order 0%nat Hrange)
                  [ObserveBatchSize 3; ObserveBatchAssemble] schema data
                  (ErrorsNew 1 "mock execution failed") [] Htrace)).
Defined.

(** With an executor that fails on its first call, the flush of the two
    groups calls it once and returns its error; with one that fails on its
    second call, twice. *)
Example flush_first_group_fails :
  (flushFunc (failing_executor 0) heap background grouping_order 0%nat).1
  = Returns (Some (ErrorsNew 1 "mock execution failed"))
  /\ executor (flushFunc (failing_executor 0) heap background grouping_order 0%nat).2
     = 1%nat
  /\ executor (flushFunc (failing_executor 1) heap background grouping_order 0%nat).2
     = 2%nat
  /\ (flushFunc ok_executor heap background grouping_order tt).1 = Returns None.
Proof. vm_compute. repeat split. Qed.

Lemma schemaGroups_by_identity_witness :
  request schema1 [AInt 0; AString "name1_0"] ∈ grouping_batch /\
  request schema2 [AInt 10; AString "name2_0"] ∈ grouping_batch /\
  ~ exists k g, schemaGroups grouping_batch !! k = Some g /\
                request schema1 [AInt 0; AString "name1_0"] ∈ g /\
                request schema2 [AInt 10; AString "name2_0"] ∈ g.
Proof.
  assert (request schema1 [AInt 0; AString "name1_0"] ∈ grouping_batch) as H1
    by left.
  assert (request schema2 [AInt 10; AString "name2_0"] ∈ grouping_batch) as H2
    by (right; left).
  split; [exact H1|]. split; [exact H2|].
  refine (proj2 (proj2 (schemaGroups_by_identity grouping_batch _ _ H1 H2))
            1%positive 2%positive _ eq_refl eq_refl).
  discriminate.
Defined.

(** [TestSchemaGrouping]: the two instances hold the same schema, and the
    batch falls into two groups of three, each in submit order. *)
Example schemaGroups_identical_instances :
  sqlschema_at heap 1 = sqlschema_at heap 2
  /\ schemaGroups grouping_batch !! Some schema1
     = Some [request schema1 [AInt 0; AString "name1_0"];
             request schema1 [AInt 1; AString "name1_1"];
             request schema1 [AInt 2; AString "name1_2"]]
  /\ schemaGroups grouping_batch !! Some schema2
     = Some [request schema2 [AInt 10; AString "name2_0"];
             request schema2 [AInt 11; AString "name2_1"];
             request schema2 [AInt 12; AString "name2_2"]]
  /\ size (schemaGroups grouping_batch) = 2%nat.
Proof. vm_compute. repeat split. Qed.

End EngineExamples.

(** ** Submit *)

Section SubmitClaims.

Variable h : Heap.

(** C4.  A [Submit] whose context is already done when the call starts
    returns that context's error, whatever the scheduler would decide at the
    [select] and whatever room the buffer has, and leaves the engine, its
    buffer included, as it was. *)
Theorem Submit_cancelled_context sel b ctx request err :
  ctx_Err (ctx 0%nat) = Some err ->
  Submit h sel b ctx request = Returned (Some err, b)
  /\ (err = Canceled \/ err = DeadlineExceeded).
Proof.
  intros Hctx. unfold Submit. rewrite Hctx. split; [reflexivity|].
  destruct (ctx 0%nat) as [|[] cause]; simpl in Hctx; simplify_eq; auto.
Qed.

(** C5.  A [Submit] that returns, returns one of six results, each under
    its condition: nil, and then the request, a valid one, was appended to
    the buffer; [ErrEmptyRequest], and the request is nil;
    [ErrInvalidSchema], and the request's schema is nil; [ErrMissingColumn],
    and the schema has no column; [ErrEmptySchemaName], and the schema's
    name is empty; or a cancellation error, [Canceled] or
    [DeadlineExceeded].  With every error the engine, its buffer included,
    is as it was. *)
Theorem Submit_results sel b ctx request result b' :
  Submit h sel b ctx request = Returned (result, b') ->
  (result = None /\ valid_request h request /\
   exists r, request = Some r /\ dataChan b' = (dataChan b ++ [r])%list)
  \/ (result <> None /\ b' = b /\
      ((result = Some ErrEmptyRequest /\ request = None)
       \/ (result = Some ErrInvalidSchema /\
           exists r, request = Some r /\ SchemaOf r = None)
       \/ (result = Some ErrMissingColumn /\
           exists r schema, request = Some r /\ SchemaOf r = Some schema /\
                            Columns h schema = [])
       \/ (result = Some ErrEmptySchemaName /\
           exists r schema, request = Some r /\ SchemaOf r = Some schema /\
                            Name h schema = "")
       \/ result = Some Canceled
       \/ result = Some DeadlineExceeded)).
Proof.
  unfold Submit. intros H.
  assert (forall s, ctx_Err s = Some Canceled \/ ctx_Err s = Some DeadlineExceeded
                    \/ ctx_Err s = None) as Hctx.
  { intros [|[] cause]; simpl; auto. }
  destruct (ctx_Err (ctx 0%nat)) as [e0|] eqn:E0.
  { injection H as <- <-. right. split; [discriminate|]. split; [reflexivity|].
    destruct (Hctx (ctx 0%nat)) as [Hc|[Hc|Hc]]; rewrite E0 in Hc; simplify_eq; auto 10. }
  destruct (closed b).
  { injection H as <- <-. right. split; [discriminate|]. auto 10. }
  destruct request as [r|].
  2:{ injection H as <- <-. right. split; [discriminate|]. auto 10. }
  destruct (SchemaOf r) as [schema|] eqn:Es.
  2:{ injection H as <- <-. right. split; [discriminate|].
      split; [reflexivity|]. right. left. eauto. }
  destruct (Columns h schema) as [|c cols] eqn:Ec; simpl in H.
  { injection H as <- <-. right. split; [discriminate|].
    split; [reflexivity|]. do 2 right. left. split; [reflexivity|].
    exists r, schema. auto. }
  destruct (Name h schema) as [|a nm] eqn:En; simpl in H.
  { injection H as <- <-. right. split; [discriminate|].
    split; [reflexivity|]. do 3 right. left. split; [reflexivity|].
    exists r, schema. auto. }
  assert (valid_request h (Some r)) as Hvalid.
  { exists r, schema. rewrite Ec, En. repeat split; auto; discriminate. }
  destruct (can_send sel), (ctx_Err (ctx 1%nat)) as [e1|] eqn:E1;
    try destruct (picks_send sel); simplify_eq;
    try (left; split; [reflexivity|]; split; [exact Hvalid|];
         exists r; split; reflexivity);
    right; (split; [discriminate|]); (split; [reflexivity|]);
    destruct (Hctx (ctx 1%nat)) as [Hc|[Hc|Hc]]; rewrite E1 in Hc;
    simplify_eq; auto 10.
Qed.

(** C10 (amended).  Once the [closed] flag is set, every [Submit] returns,
    before it looks at the request, a cancellation error and leaves the
    engine as it was: the error of the submit context when that context is
    itself done, which is [DeadlineExceeded] for an expired deadline, and
    [Canceled] otherwise.  A nil request or a request with a nil or invalid
    schema gets this error and not its validation error. *)
Theorem Submit_closed sel b ctx request :
  closed b = true ->
  Submit h sel b ctx request
  = Returned (Some (default Canceled (ctx_Err (ctx 0%nat))), b)
  /\ (ctx 0%nat = Live -> Submit h sel b ctx request = Returned (Some Canceled, b)).
Proof.
  intros Hclosed. unfold Submit. rewrite Hclosed.
  destruct (ctx 0%nat) as [|e cause]; simpl.
  - split; [reflexivity | reflexivity].
  - split; [reflexivity | discriminate].
Qed.

End SubmitClaims.

(** The checks of [Submit] in their order, for a live context and an open
    engine: the first check that fails decides the error. *)
Lemma Submit_validation_order h sel b ctx :
  ctx 0%nat = Live -> closed b = false ->
  Submit h sel b ctx None = Returned (Some ErrEmptyRequest, b)
  /\ (forall r, SchemaOf r = None ->
      Submit h sel b ctx (Some r) = Returned (Some ErrInvalidSchema, b))
  /\ (forall r schema, SchemaOf r = Some schema -> Columns h schema = [] ->
      Submit h sel b ctx (Some r) = Returned (Some ErrMissingColumn, b))
  /\ (forall r schema, SchemaOf r = Some schema -> Columns h schema <> [] ->
      Name h schema = "" ->
      Submit h sel b ctx (Some r) = Returned (Some ErrEmptySchemaName, b)).
Proof.
  intros Hlive Hopen. unfold Submit. rewrite Hlive, Hopen. simpl.
  split; [reflexivity|]. split; [|split].
  - intros r ->. reflexivity.
  - intros r schema -> ->. reflexivity.
  - intros r schema -> Hcols ->.
    destruct (Columns h schema); [congruence | reflexivity].
Qed.

Section SubmitExamples.

Import Fixture.

Lemma Submit_cancelled_context_witness :
  ctx_Err (cancelled 0%nat) = Some Canceled /\
  Submit heap ready open_engine cancelled
    (Some (request users_ptr [AInt 1; AString "a"]))
  = Returned (Some Canceled, open_engine)
  /\ (Canceled = Canceled \/ Canceled = DeadlineExceeded).
Proof.
  split; [reflexivity|].
  apply (Submit_cancelled_context heap ready open_engine cancelled
           (Some (request users_ptr [AInt 1; AString "a"])) Canceled).
  reflexivity.
Defined.

Lemma Submit_results_witness :
  Submit heap ready open_engine background
    (Some (request users_ptr [AInt 1; AString "a"]))
  = Returned (None, enqueue ready open_engine (request users_ptr [AInt 1; AString "a"]))
  /\ dataChan (enqueue ready open_engine (request users_ptr [AInt 1; AString "a"]))
     = [request users_ptr [AInt 1; AString "a"]].
Proof.
  assert (Submit heap ready open_engine background
            (Some (request users_ptr [AInt 1; AString "a"]))
          = Returned (None, enqueue ready open_engine
                              (request users_ptr [AInt 1; AString "a"]))) as Hrun
    by reflexivity.
  split; [exact Hrun|].
  destruct (Submit_results heap ready open_engine background _ _ _ Hrun)
    as [(_ & _ & r & Hr & Hbuf) | (Hne & _)].
  - injection Hr as <-. exact Hbuf.
  - exfalso. apply Hne. reflexivity.
Defined.

Lemma Submit_closed_witness :
  closed closed_engine = true /\
  Submit heap ready closed_engine background None
  = Returned (Some Canceled, closed_engine).
Proof.
  split; [reflexivity|].
  exact (proj1 (Submit_closed heap ready closed_engine background None eq_refl)).
Defined.

(** C10, as stated, fails: the engine is closed and the submit context's
    deadline has passed; [Submit] returns [DeadlineExceeded], where the
    claim has [context.Canceled]. *)
Lemma Submit_closed_counterexample :
  closed closed_engine = true /\
  Submit heap ready closed_engine expired None
  = Returned (Some DeadlineExceeded, closed_engine) /\
  Submit heap ready closed_engine expired None
  <> Returned (Some Canceled, closed_engine).
Proof. repeat split. discriminate. Qed.

End SubmitExamples.

(** ** Processors *)

Lemma errors_Is_new_deadline addr msg :
  errors_Is (ErrorsNew addr msg) DeadlineExceeded = false.
Proof. reflexivity. Qed.

Lemma allocated_before_fresh next msg e :
  allocated_before next e = true -> e <> ErrorsNew next msg.
Proof.
  intros Halloc ->. simpl in Halloc.
  rewrite Pos.ltb_irrefl in Halloc. discriminate.
Qed.

(** C3 (amended).  The relational processor rejects a zero-length
    operations list with the error "empty operations", whatever its timeout,
    its database and the context.  The key-value processor has no such
    check: for a zero-length list it queues nothing, executes the empty
    pipeline and returns what the client reports, which is nil, a success,
    when the client reports no error for the empty pipeline. *)
Theorem ExecuteOperations_empty bp rp own next ctx :
  (forall c, RedisBatchProcessor.Exec (RedisBatchProcessor.client rp) c []
             = ([], None)) ->
  (exists addr,
     (SQLBatchProcessor.ExecuteOperations bp own next ctx []).1
     = Some (ErrorsNew addr "empty operations"))
  /\ (RedisBatchProcessor.ExecuteOperations rp own next ctx []).1 = None.
Proof.
  intros Hexec. split.
  - unfold SQLBatchProcessor.ExecuteOperations.
    destruct (0 <? SQLBatchProcessor.timeout bp); simpl; eexists; reflexivity.
  - unfold RedisBatchProcessor.ExecuteOperations.
    destruct (0 <? RedisBatchProcessor.timeout rp); simpl;
      rewrite Hexec; reflexivity.
Qed.

(** C7.  The relational processor has a timeout, its database call fails
    with an error that is a [context.DeadlineExceeded], and every error in
    the caller's context was allocated before the call.  Then
    [ExecuteOperations] returns the sentinel "execute batch timeout", the
    cause it gave its derived context, exactly when the timer of the derived
    context is what ended it; when the caller's context ended first, the
    caller's cause is returned, and when no context has ended, the
    database's error. *)
Theorem ExecuteOperations_timeout_cause bp own next ctx sql args err :
  0 < SQLBatchProcessor.timeout bp ->
  SQLBatchProcessor.ExecContext (SQLBatchProcessor.db bp)
    (WithTimeoutCause ctx own (ErrorsNew next execute_batch_timeout)) sql args
  = Some err ->
  errors_Is err DeadlineExceeded = true ->
  (forall e cause, ctx 0%nat = Done e cause -> allocated_before next cause = true) ->
  ((SQLBatchProcessor.ExecuteOperations bp own next ctx
      (OpValue (AString sql) :: args)).1
   = Some (ErrorsNew next execute_batch_timeout)
   <-> own 0%nat = true)
  /\ (own 0%nat = false -> forall e cause, ctx 0%nat = Done e cause ->
      (SQLBatchProcessor.ExecuteOperations bp own next ctx
         (OpValue (AString sql) :: args)).1 = Some cause)
  /\ (own 0%nat = false -> ctx 0%nat = Live ->
      (SQLBatchProcessor.ExecuteOperations bp own next ctx
         (OpValue (AString sql) :: args)).1 = Some err).
Proof.
  intros Htimeout Hexec His Halloc.
  unfold SQLBatchProcessor.ExecuteOperations.
  apply Z.ltb_lt in Htimeout. rewrite Htimeout. simpl.
  rewrite Hexec, His. unfold WithTimeoutCause.
  destruct (own 0%nat) eqn:Hown; simpl.
  - split; [split; reflexivity|]. split; discriminate.
  - destruct (ctx 0%nat) as [|e cause] eqn:Hctx; simpl.
    + split; [split; [|discriminate]|split].
      * intros [= ->]. rewrite errors_Is_new_deadline in His. discriminate.
      * intros _ e cause [=].
      * reflexivity.
    + split; [split; [|discriminate]|split].
      * intros [= Heq]. exfalso.
        exact (allocated_before_fresh next execute_batch_timeout cause
                 (Halloc e cause eq_refl) Heq).
      * intros _ e' cause' [= _ <-]. reflexivity.
      * discriminate.
Qed.

(** The key-value processor treats a failed [Exec] in the same way, once
    all the operations are queued. *)
Lemma Redis_ExecuteOperations_timeout_cause rp own next ctx operations
    queued i cmds err :
  0 < RedisBatchProcessor.timeout rp ->
  RedisBatchProcessor.queue_all
    (WithTimeoutCause ctx own (ErrorsNew next execute_batch_timeout))
    0 operations [] = (inr queued, i) ->
  RedisBatchProcessor.Exec (RedisBatchProcessor.client rp)
    (WithTimeoutCause ctx own (ErrorsNew next execute_batch_timeout)) queued
  = (cmds, Some err) ->
  errors_Is err DeadlineExceeded = true ->
  (forall e cause, ctx i = Done e cause -> allocated_before next cause = true) ->
  (RedisBatchProcessor.ExecuteOperations rp own next ctx operations).1
  = Some (ErrorsNew next execute_batch_timeout)
  <-> own i = true.
Proof.
  intros Htimeout Hqueue Hexec His Halloc.
  unfold RedisBatchProcessor.ExecuteOperations.
  apply Z.ltb_lt in Htimeout. rewrite Htimeout. simpl.
  rewrite Hqueue, Hexec, His. unfold WithTimeoutCause.
  destruct (own i) eqn:Hown; simpl; [split; reflexivity|].
  destruct (ctx i) as [|e cause] eqn:Hctx; simpl.
  - split; [|discriminate].
    intros [= ->]. rewrite errors_Is_new_deadline in His. discriminate.
  - split; [|discriminate]. intros [= Heq]. exfalso.
    exact (allocated_before_fresh next execute_batch_timeout cause
             (Halloc e cause eq_refl) Heq).
Qed.

Section ProcessorExamples.

Import Fixture.

Lemma ExecuteOperations_empty_witness :
  (forall c, RedisBatchProcessor.Exec (RedisBatchProcessor.client ok_redis) c []
             = ([], None)) /\
  (exists addr,
     (SQLBatchProcessor.ExecuteOperations ok_sql timer_pending 1 background []).1
     = Some (ErrorsNew addr "empty operations"))
  /\ (RedisBatchProcessor.ExecuteOperations ok_redis timer_pending 1 background []).1
     = None.
Proof.
  assert (forall c, RedisBatchProcessor.Exec (RedisBatchProcessor.client ok_redis) c []
                    = ([], None)) as Hexec by (intros c; reflexivity).
  split; [exact Hexec|].
  exact (ExecuteOperations_empty ok_sql ok_redis timer_pending 1 background Hexec).
Defined.

(** C3, as stated, fails for the key-value processor: with a client whose
    pipeline succeeds, [ExecuteOperations] of no operation returns nil. *)
Lemma ExecuteOperations_empty_counterexample :
  length ([] : Operations) = 0%nat /\
  RedisBatchProcessor.ExecuteOperations ok_redis timer_pending 1 background []
  = (None, 1%positive).
Proof. split; reflexivity. Qed.

Lemma ExecuteOperations_timeout_cause_witness :
  (SQLBatchProcessor.ExecuteOperations slow_sql timer_fired 7 expired
     insert_users).1
  = Some (ErrorsNew 7 execute_batch_timeout)
  /\ (SQLBatchProcessor.ExecuteOperations slow_sql timer_pending 7 expired
        insert_users).1
     = Some DeadlineExceeded
  /\ (SQLBatchProcessor.ExecuteOperations slow_sql timer_pending 7 expired
        insert_users).1
     <> Some (ErrorsNew 7 execute_batch_timeout).
Proof.
  assert (0 < SQLBatchProcessor.timeout slow_sql) as Htimeout by reflexivity.
  assert (forall e cause, expired 0%nat = Done e cause ->
                          allocated_before 7 cause = true) as Halloc
    by (intros e cause [= _ <-]; reflexivity).
  pose proof (ExecuteOperations_timeout_cause slow_sql timer_fired 7 expired
                insert_users_sql insert_users_args
                (Wrapped "exec" DeadlineExceeded)
                Htimeout eq_refl eq_refl Halloc) as [Hfired _].
  pose proof (ExecuteOperations_timeout_cause slow_sql timer_pending 7 expired
                insert_users_sql insert_users_args
                (Wrapped "exec" DeadlineExceeded)
                Htimeout eq_refl eq_refl Halloc) as [Hpending [Hcause _]].
  split; [apply Hfired; reflexivity|].
  split; [exact (Hcause eq_refl _ _ eq_refl)|].
  intros Hsentinel. apply Hpending in Hsentinel. discriminate Hsentinel.
Defined.

(** The deadline of the caller's context: the processor's timer has not
    fired, and the caller's cause is returned, not the sentinel. *)
Example ExecuteOperations_outer_deadline :
  SQLBatchProcessor.ExecuteOperations slow_sql timer_pending 7 expired insert_users
  = (Some DeadlineExceeded, 8%positive)
  /\ SQLBatchProcessor.ExecuteOperations slow_sql timer_fired 7 expired insert_users
     = (Some (ErrorsNew 7 execute_batch_timeout), 8%positive).
Proof. split; reflexivity. Qed.

(** The key-value processor looks at the context before it queues an
    operation and returns [ctx.Err()] there: a timer that has fired by then
    gives [DeadlineExceeded], not the sentinel. *)
Example Redis_deadline_before_queueing :
  RedisBatchProcessor.ExecuteOperations timed_redis timer_fired 7 background
    [OpCmd [AString "SET"; AString "k"; AString "v"]]
  = (Some DeadlineExceeded, 8%positive).
Proof. reflexivity. Qed.

End ProcessorExamples.

(** ** The executor's retry loop *)

Lemma count_app f (l1 l2 : list Executor.metric) :
  Executor.count f (l1 ++ l2)%list = Executor.count f l1 + Executor.count f l2.
Proof.
  unfold Executor.count. rewrite List.filter_app, length_app. lia.
Qed.

Lemma prefix_append s r : String.prefix s (s +:+ r) = true.
Proof.
  induction s as [|a s IH]; simpl.
  - destruct r; reflexivity.
  - destruct (Ascii.ascii_dec a a); [exact IH | congruence].
Qed.

Lemma prefix_retry_final r : String.prefix "retry:" ("final:" +:+ r) = false.
Proof. reflexivity. Qed.

Lemma prefix_final_retry r : String.prefix "final:" ("retry:" +:+ r) = false.
Proof. reflexivity. Qed.

Lemma count_cons f (x : Executor.metric) l :
  Executor.count f (x :: l) = (if f x then 1 else 0) + Executor.count f l.
Proof.
  unfold Executor.count. simpl. destruct (f x); simpl; lia.
Qed.

Lemma count_nil f : Executor.count f [] = 0.
Proof. reflexivity. Qed.

Ltac count_metrics :=
  unfold Executor.invocations, Executor.retries, Executor.finals in *;
  rewrite ?count_app, ?count_cons, ?count_nil;
  cbn [Executor.is_invocation Executor.is_error_kind];
  rewrite ?prefix_append, ?prefix_retry_final, ?prefix_final_retry.

Section ExecutorFacts.

Import Executor.

Context {PS : Type}.
Variable processor : BatchProcessor PS.
Variable classify : error -> bool * string.
Variable retryConfig : RetryConfig.
Variable ConcurrencyLimit : Z.
Variable ctx : Context.
Variable table : string.
Variable schema : SchemaInterface.
Variable rows : list row.

Hypothesis enabled : Enabled retryConfig = true.
Hypothesis live : forall t, ctx t = Live.
Hypothesis always_retryable :
  forall ps, exists err ps',
    invoke processor schema rows ps = (Some err, ps') /\ (classify err).1 = true.

(** From attempt [attempt] on, the loop invokes the processor once per
    remaining attempt, counts a retry for each but the last and a final
    failure for the last. *)
Lemma attempts_exhausted fuel attempt ps log :
  1 <= attempt <= MaxAttempts retryConfig ->
  (Z.to_nat (MaxAttempts retryConfig - attempt) < fuel)%nat ->
  exists err ps' ext,
    attempts processor classify retryConfig ctx table schema rows
      fuel attempt ps log = Some (Some err, ps', (log ++ ext)%list)
    /\ invocations ext = MaxAttempts retryConfig - attempt + 1
    /\ retries ext = MaxAttempts retryConfig - attempt
    /\ finals ext = 1.
Proof.
  revert attempt ps log.
  induction fuel as [|fuel IH]; intros attempt ps log Hrange Hfuel; [lia|].
  simpl. destruct (always_retryable ps) as (err & ps1 & Hinv & Hretry).
  rewrite Hinv. destruct (classify err) as [retryable reason].
  simpl in Hretry. subst retryable. rewrite enabled. simpl.
  rewrite orb_false_r.
  destruct (Z.eqb_spec attempt (MaxAttempts retryConfig)) as [Heq|Hne].
  - exists err, ps1. eexists. split.
    { rewrite <- app_assoc. reflexivity. }
    count_metrics. lia.
  - rewrite live. simpl.
    destruct (IH (attempt + 1) ps1
                ((log ++ [Invocation]) ++
                 [IncError table ("retry:" +:+ reason); Sleep (backoff retryConfig attempt)])%list)
      as (err' & ps' & ext & Hrun & Hinvs & Hretries & Hfinals); [lia | lia |].
    exists err', ps'. eexists. split.
    { rewrite Hrun. rewrite <- !app_assoc. reflexivity. }
    count_metrics. lia.
Qed.

End ExecutorFacts.

(** C2 (amended).  The retries are enabled, [MaxAttempts] is [M] with
    [M >= 1], every processor invocation fails with an error the classifier
    calls retryable, and the context stays live during the call.  Then one
    [ExecuteBatch] returns (any bound of at least [M] loop rounds is enough
    for the model), returns an error, has invoked the processor exactly [M]
    times, and has incremented the error counter exactly [M - 1] times with
    a kind that starts with "retry:" and exactly once with a kind that
    starts with "final:". *)
Theorem ExecuteBatch_exhausts_attempts {PS} (processor : Executor.BatchProcessor PS)
    classify retryConfig ConcurrencyLimit ctx table schema rows M fuel ps :
  Executor.Enabled retryConfig = true ->
  Executor.MaxAttempts retryConfig = M ->
  1 <= M ->
  (forall t, ctx t = Live) ->
  (forall ps, exists err ps',
     Executor.invoke processor schema rows ps = (Some err, ps')
     /\ (classify err).1 = true) ->
  (Z.to_nat M <= fuel)%nat ->
  exists err ps' log,
    Executor.ExecuteBatch processor classify retryConfig ConcurrencyLimit ctx
      table schema rows fuel ps = Some (Some err, ps', log)
    /\ Executor.invocations log = M
    /\ Executor.retries log = M - 1
    /\ Executor.finals log = 1.
Proof.
  intros Henabled HM Hpos Hlive Hretry Hfuel. subst M.
  destruct (attempts_exhausted processor classify retryConfig ctx table schema
              rows Henabled Hlive Hretry fuel 1 ps [Executor.IncInflight])
    as (err & ps' & ext & Hrun & Hinvs & Hretries & Hfinals); [lia | lia |].
  exists err, ps', (([Executor.IncInflight] ++ ext) ++ [Executor.DecInflight])%list.
  split.
  - unfold Executor.ExecuteBatch. rewrite Hlive. simpl.
    destruct (0 <? ConcurrencyLimit); rewrite Hrun; reflexivity.
  - count_metrics. lia.
Qed.

Section ExecutorExamples.

Import Fixture.

Lemma ExecuteBatch_exhausts_attempts_witness :
  exists err ps' log,
    Executor.ExecuteBatch alwaysRetryProcessor timeout_classifier retry_twice 0
      background "users" users_ptr one_row 2 1%positive
    = Some (Some err, ps', log)
    /\ Executor.invocations log = 2
    /\ Executor.retries log = 2 - 1
    /\ Executor.finals log = 1.
Proof.
  apply (ExecuteBatch_exhausts_attempts alwaysRetryProcessor timeout_classifier
           retry_twice 0 background "users" users_ptr one_row 2 2 1%positive).
  - reflexivity.
  - reflexivity.
  - lia.
  - intros t. reflexivity.
  - intros ps. eexists. eexists. split; reflexivity.
  - simpl. lia.
Defined.

(** [TestThrottledExecutor_Retry_FinalFailure]: two invocations, one retry,
    one final failure, and the in-flight counter back where it was. *)
Example ExecuteBatch_retry_final_failure :
  Executor.ExecuteBatch alwaysRetryProcessor timeout_classifier retry_twice 0
    background "users" users_ptr one_row 2 1%positive
  = Some (Some (ErrorsNew 2 "timeout: temporary network failure"), 3%positive,
          [Executor.IncInflight;
           Executor.Invocation;
           Executor.IncError "users" "retry:timeout";
           Executor.Sleep 1000000;
           Executor.Invocation;
           Executor.IncError "users" "final:timeout";
           Executor.ObserveExecuteDuration "users" 1 "fail";
           Executor.DecInflight]).
Proof. vm_compute. reflexivity. Qed.

(** C2, as stated, fails for a configuration whose retries are switched
    off: [MaxAttempts] is 2 and the processor always fails with a retryable
    error, yet the processor is invoked once and no retry is counted. *)
Lemma ExecuteBatch_disabled_counterexample :
  Executor.MaxAttempts retry_disabled = 2 /\
  (forall ps, exists err ps',
     Executor.invoke alwaysRetryProcessor users_ptr one_row ps = (Some err, ps')
     /\ (timeout_classifier err).1 = true) /\
  exists err ps' log,
    Executor.ExecuteBatch alwaysRetryProcessor timeout_classifier retry_disabled 0
      background "users" users_ptr one_row 2 1%positive
    = Some (Some err, ps', log)
    /\ Executor.invocations log = 1
    /\ Executor.retries log = 0
    /\ Executor.invocations log <> Executor.MaxAttempts retry_disabled
    /\ Executor.retries log <> Executor.MaxAttempts retry_disabled - 1.
Proof.
  split; [reflexivity|]. split.
  - intros ps. eexists. eexists. split; reflexivity.
  - eexists. eexists. eexists. split; [vm_compute; reflexivity|].
    vm_compute. repeat split; discriminate.
Qed.

End ExecutorExamples.

(** ** The relational drivers *)

Section DriverFacts.

Import Driver.

Lemma uniform_concat_length {A} (ls : list (list A)) n :
  Forall (fun l => length l = n) ls ->
  length (List.concat ls) = (length ls * n)%nat.
Proof.
  induction 1 as [|l ls Hl _ IH]; simpl; [reflexivity|].
  rewrite length_app, IH, Hl. reflexivity.
Qed.

(** In the concatenation of lists of one length [n], element [j] of list
    [i] sits at position [i * n + j]. *)
Lemma uniform_concat_lookup {A} (ls : list (list A)) n i j l x :
  Forall (fun l => length l = n) ls ->
  ls !! i = Some l -> l !! j = Some x ->
  List.concat ls !! (i * n + j)%nat = Some x.
Proof.
  intros Hall. revert i.
  induction Hall as [|l0 ls Hl0 _ IH]; intros i Hi Hj; [discriminate|].
  destruct i as [|i]; simpl in *.
  - injection Hi as ->. apply lookup_app_l_Some. exact Hj.
  - rewrite lookup_app_r by lia.
    replace (n + i * n + j - length l0)%nat with (i * n + j)%nat by lia.
    apply IH; assumption.
Qed.

Lemma arguments_rows_uniform cols (data : list row) :
  Forall (fun l => length l = length cols)
    (List.map (fun r => List.map (map_read r) cols) data).
Proof.
  apply Forall_forall. intros l Hin.
  apply list_elem_of_In, in_map_iff in Hin as (r & <- & _).
  apply length_map.
Qed.

Lemma arguments_length cols (data : list row) :
  length (arguments cols data) = (length data * length cols)%nat.
Proof.
  unfold arguments.
  rewrite (uniform_concat_length _ (length cols) (arguments_rows_uniform cols data)).
  rewrite length_map. reflexivity.
Qed.

Lemma arguments_row_major cols (data : list row) i j r col :
  data !! i = Some r -> cols !! j = Some col ->
  arguments cols data !! (i * length cols + j)%nat = Some (map_read r col).
Proof.
  intros Hi Hj. unfold arguments.
  apply (uniform_concat_lookup _ _ i j (List.map (map_read r) cols)).
  - apply arguments_rows_uniform.
  - change (List.map ?f data) with (f <$> data).
    rewrite list_lookup_fmap, Hi. reflexivity.
  - change (List.map ?f cols) with (f <$> cols).
    rewrite list_lookup_fmap, Hj. reflexivity.
Qed.

End DriverFacts.

(** C9.  Whenever [GenerateInsertSQL] succeeds, for any dialect, schema and
    rows, its argument list has [len(rows) * len(columns)] elements and is
    laid out row by row: the argument at position [i * len(columns) + j] is
    what row [i] holds for column [j], nil when the row has no entry.  For
    the MySQL dialect, the schema "users" with the columns id and name and
    the policy IgnoreConflict, and the rows {id:1, name:"a"} and
    {id:2, name:"b"}, the statement contains "INSERT IGNORE INTO users" and
    the arguments are exactly 1, "a", 2, "b". *)
Theorem GenerateInsertSQL_arguments d ctx schema data sql args :
  Driver.GenerateInsertSQL d ctx schema data = inr (sql, args) ->
  (length args = (length data * length (columns (embedded schema)))%nat
   /\ forall i j r col,
        data !! i = Some r -> columns (embedded schema) !! j = Some col ->
        args !! (i * length (columns (embedded schema)) + j)%nat
        = Some (map_read r col))
  /\ exists users_sql,
       Driver.GenerateInsertSQL Driver.MySQL background Fixture.users
         Fixture.two_rows
       = inr (users_sql, [AInt 1; AString "a"; AInt 2; AString "b"])
       /\ Driver.contains users_sql "INSERT IGNORE INTO users" = true
       /\ length [AInt 1; AString "a"; AInt 2; AString "b"] = 4%nat.
Proof.
  intros Hgen. split.
  - unfold Driver.GenerateInsertSQL in Hgen.
    destruct data as [|r0 data0] eqn:Hdata.
    { injection Hgen as <- <-. split; [reflexivity|]. intros i j r col Hi. discriminate Hi. }
    rewrite <- Hdata in *. clear Hdata.
    destruct (ctx_Err (ctx 0%nat)); [discriminate|].
    destruct (columns (embedded schema)) as [|c cols] eqn:Hcols; [discriminate|].
    rewrite <- Hcols in *. injection Hgen as _ <-.
    split; [apply arguments_length|].
    intros i j r col. apply arguments_row_major.
  - eexists. split; [vm_compute; reflexivity|].
    split; [vm_compute; reflexivity | reflexivity].
Qed.

Section DriverExamples.

Import Fixture.

Lemma GenerateInsertSQL_arguments_witness :
  Driver.GenerateInsertSQL Driver.MySQL background users two_rows
  = inr ("INSERT IGNORE INTO users (id, name) VALUES (?, ?), (?, ?)",
         [AInt 1; AString "a"; AInt 2; AString "b"])
  /\ length [AInt 1; AString "a"; AInt 2; AString "b"] = (2 * 2)%nat
  /\ [AInt 1; AString "a"; AInt 2; AString "b"] !! (1 * 2 + 0)%nat
     = Some (map_read ({["id" := AInt 2; "name" := AString "b"]} : row) "id").
Proof.
  assert (Driver.GenerateInsertSQL Driver.MySQL background users two_rows
          = inr ("INSERT IGNORE INTO users (id, name) VALUES (?, ?), (?, ?)",
                 [AInt 1; AString "a"; AInt 2; AString "b"])) as Hgen
    by (vm_compute; reflexivity).
  split; [exact Hgen|].
  destruct (GenerateInsertSQL_arguments Driver.MySQL background users two_rows
              _ _ Hgen) as [[Hlen Hlayout] _].
  split; [exact Hlen|].
  exact (Hlayout 1%nat 0%nat _ "id" eq_refl eq_refl).
Defined.

(** The other rows of the dialect table on the same input, as the driver
    tests expect them. *)
Example dialect_table :
  let s conf := NewSQLSchema "users" {| conflictStrategy := conf |} ["id"; "name"] in
  let sql d conf :=
    match Driver.GenerateInsertSQL d background (s conf) two_rows with
    | inr (text, _) => text
    | inl _ => ""
    end in
  sql Driver.MySQL 255 = "INSERT INTO users (id, name) VALUES (?, ?), (?, ?)"
  /\ sql Driver.MySQL ConflictReplace
     = "REPLACE INTO users (id, name) VALUES (?, ?), (?, ?)"
  /\ Driver.contains (sql Driver.MySQL ConflictUpdate) "ON DUPLICATE KEY UPDATE" = true
  /\ Driver.contains (sql Driver.PostgreSQL ConflictIgnore) "ON CONFLICT DO NOTHING" = true
  /\ Driver.contains (sql Driver.PostgreSQL ConflictUpdate)
       "ON CONFLICT (id) DO UPDATE SET" = true
  /\ sql Driver.SQLite ConflictIgnore
     = "INSERT OR IGNORE INTO users (id, name) VALUES (?, ?), (?, ?)"
  /\ Driver.contains (sql Driver.SQLite ConflictReplace) "INSERT OR REPLACE INTO users" = true
  /\ Driver.contains (sql Driver.SQLite ConflictUpdate) "ON CONFLICT DO UPDATE SET" = true
  /\ sql Driver.Unknown ConflictIgnore
     = "INSERT INTO users (id, name) VALUES (?, ?), (?, ?)"
  /\ Driver.GenerateInsertSQL Driver.MySQL background users [] = inr ("", [])
  /\ Driver.GenerateInsertSQL Driver.MySQL cancelled users two_rows = inl Canceled.
Proof. vm_compute. repeat split. Qed.

End DriverExamples.

(** * Further properties of the code *)

(** ** Sequences of submits *)

Section SubmitSequences.

Variable h : Heap.

(** What one returning [Submit] does to the engine: it appends a valid
    request and the two reports of an enqueue, or it changes nothing. *)
Lemma Submit_step sel b ctx request result b' :
  Submit h sel b ctx request = Returned (result, b') ->
  (result = None /\
   exists r, request = Some r /\ valid_request h (Some r) /\
             b' = enqueue sel b r)
  \/ (result <> None /\ b' = b).
Proof.
  unfold Submit. intros H.
  destruct (ctx_Err (ctx 0%nat)); [right; split; congruence|].
  destruct (closed b); [right; split; congruence|].
  destruct request as [r|]; [|right; split; congruence].
  destruct (SchemaOf r) as [schema|] eqn:Es; [|right; split; congruence].
  destruct (Columns h schema) as [|c cols] eqn:Ec; simpl in H;
    [right; split; congruence|].
  destruct (Name h schema) as [|a nm] eqn:En; simpl in H;
    [right; split; congruence|].
  assert (valid_request h (Some r)) as Hvalid.
  { exists r, schema. rewrite Ec, En. repeat split; auto; discriminate. }
  destruct (can_send sel), (ctx_Err (ctx 1%nat)); try destruct (picks_send sel);
    simplify_eq; try (right; split; congruence);
    left; (split; [reflexivity|]); exists r; auto.
Qed.

(** The buffer after a sequence of calls. *)
Lemma Submits_effect b calls :
  dataChan (Submits h b calls) = (dataChan b ++ accepted h b calls)%list
  /\ sublist (accepted h b calls) (omap call_request calls)
  /\ Forall (fun r => valid_request h (Some r)) (accepted h b calls).
Proof.
  revert b. induction calls as [|c calls IH]; intros b; simpl.
  - rewrite app_nil_r. repeat split; constructor.
  - destruct (Submit h (call_select c) b (call_ctx c) (call_request c))
      as [[result b']|] eqn:E.
    + destruct (IH b') as (Hbuf & Hsub & Hvalid).
      destruct (Submit_step _ _ _ _ _ _ E)
        as [(-> & r & Hr & Hv & ->) | (Hne & ->)].
      * rewrite Hr in *. simpl. split; [|split].
        -- rewrite Hbuf. simpl. rewrite <- app_assoc. reflexivity.
        -- apply sublist_skip. exact Hsub.
        -- constructor; assumption.
      * destruct result as [e|]; [|congruence].
        split; [exact Hbuf|]. split; [|exact Hvalid].
        destruct (call_request c); simpl; [apply sublist_cons|]; exact Hsub.
    + destruct (IH b) as (Hbuf & Hsub & Hvalid).
      split; [exact Hbuf|]. split; [|exact Hvalid].
      destruct (call_request c); simpl; [apply sublist_cons|]; exact Hsub.
Qed.

(** X1.  Whatever calls are made, in whatever scheduling, the buffer after
    them is the buffer before them followed by the requests of the calls
    that returned nil, in call order: nothing is reordered, dropped or
    invented, and every request that entered is a valid one. *)
Theorem Submits_buffer b calls :
  dataChan (Submits h b calls) = (dataChan b ++ accepted h b calls)%list
  /\ sublist (accepted h b calls) (omap call_request calls)
  /\ Forall (fun r => valid_request h (Some r)) (accepted h b calls).
Proof. exact (Submits_effect b calls). Qed.

(** X2.  [Submit] never sets or clears the [closed] flag, and it reports to
    the metrics reporter exactly twice per request that entered the buffer
    and never for a call that failed. *)
Theorem Submits_reports b calls :
  closed (Submits h b calls) = closed b
  /\ length (reported (Submits h b calls))
     = (length (reported b) + 2 * length (accepted h b calls))%nat.
Proof.
  revert b. induction calls as [|c calls IH]; intros b; simpl.
  - split; [reflexivity | lia].
  - destruct (Submit h (call_select c) b (call_ctx c) (call_request c))
      as [[result b']|] eqn:E; [|apply IH].
    destruct (IH b') as (Hclosed & Hlen).
    destruct (Submit_step _ _ _ _ _ _ E)
      as [(-> & r & Hr & Hv & ->) | (Hne & ->)].
    + rewrite Hr, Hclosed, Hlen. simpl. rewrite length_app. simpl.
      split; [reflexivity | lia].
    + destruct result as [e|]; [|congruence].
      split; assumption.
Qed.

(** X3.  Once the [closed] flag is set, no sequence of calls changes the
    engine: no request enters the buffer any more. *)
Theorem Submits_closed b calls :
  closed b = true -> Submits h b calls = b /\ accepted h b calls = [].
Proof.
  intros Hclosed. induction calls as [|c calls IH]; simpl; [split; reflexivity|].
  assert (Submit h (call_select c) b (call_ctx c) (call_request c)
          = Returned (Some (default Canceled (ctx_Err (call_ctx c 0%nat))), b))
    as ->.
  { unfold Submit. rewrite Hclosed.
    destruct (ctx_Err (call_ctx c 0%nat)); reflexivity. }
  exact IH.
Qed.

(** X4.  [Submit] waits in its [select] exactly when the context is live,
    the engine open, the request valid and the channel not ready for the
    send; a nil or invalid request, a closed engine and a done context never
    wait.  When the channel is ready and the context stays live, a valid
    request on an open engine is enqueued. *)
Theorem Submit_blocks sel b ctx request :
  (Submit h sel b ctx request = Blocked
   <-> ctx 0%nat = Live /\ closed b = false /\ valid_request h request
       /\ can_send sel = false /\ ctx 1%nat = Live)
  /\ (ctx 0%nat = Live -> closed b = false -> can_send sel = true ->
      ctx 1%nat = Live ->
      forall r, request = Some r -> valid_request h request ->
      Submit h sel b ctx request = Returned (None, enqueue sel b r)).
Proof.
  assert (forall s, ctx_Err s = None <-> s = Live) as Hlive.
  { intros [|e cause]; simpl; split; congruence. }
  split; [split|].
  - unfold Submit. intros H.
    destruct (ctx_Err (ctx 0%nat)) eqn:E0; [discriminate|].
    apply Hlive in E0.
    destruct (closed b); [discriminate|].
    destruct request as [r|]; [|discriminate].
    destruct (SchemaOf r) as [schema|] eqn:Es; [|discriminate].
    destruct (Columns h schema) as [|c cols] eqn:Ec; simpl in H; [discriminate|].
    destruct (Name h schema) as [|a nm] eqn:En; simpl in H; [discriminate|].
    destruct (can_send sel), (ctx_Err (ctx 1%nat)) eqn:E1; try discriminate;
      [destruct (picks_send sel); discriminate|].
    apply Hlive in E1.
    split; [exact E0|]. split; [reflexivity|].
    split; [|split; [reflexivity | exact E1]].
    exists r, schema. rewrite Ec, En. repeat split; auto; discriminate.
  - intros (H0 & Hopen & (r & schema & -> & Hs & Hc & Hn) & Hsend & H1).
    unfold Submit. rewrite H0, Hopen, Hs, Hsend, H1. simpl.
    destruct (Columns h schema); [congruence|].
    destruct (Name h schema); [congruence|]. reflexivity.
  - intros H0 Hopen Hsend H1 r -> (r' & schema & [= <-] & Hs & Hc & Hn).
    unfold Submit. rewrite H0, Hopen, Hs, Hsend, H1. simpl.
    destruct (Columns h schema); [congruence|].
    destruct (Name h schema); [congruence|]. reflexivity.
Qed.

End SubmitSequences.

(** ** The sizes of the groups *)

Section GroupSizes.

Implicit Types (batchData : list Request)
  (groups : gmap (option SchemaInterface) (list Request)).

Let group_size (entry : option SchemaInterface * list Request) : nat :=
  length entry.2.

Lemma sum_list_with_length {A} (f : A -> nat) (l : list A) :
  Forall (fun x => (1 <= f x)%nat) l -> (length l <= sum_list_with f l)%nat.
Proof.
  induction 1 as [|x l Hx _ IH]; simpl; lia.
Qed.

Lemma add_request_total groups request :
  sum_list_with group_size (map_to_list (add_request groups request))
  = S (sum_list_with group_size (map_to_list groups)).
Proof.
  unfold add_request.
  destruct (groups !! SchemaOf request) as [old|] eqn:E; simpl.
  - rewrite <- insert_delete_eq.
    rewrite map_to_list_insert by apply lookup_delete_eq.
    rewrite <- (map_to_list_delete groups _ _ E). simpl.
    unfold group_size at 1 3. simpl. rewrite length_app. simpl. lia.
  - rewrite map_to_list_insert by assumption. simpl. reflexivity.
Qed.

Lemma fold_add_request_total batchData groups :
  sum_list_with group_size (map_to_list (fold_left add_request batchData groups))
  = (sum_list_with group_size (map_to_list groups) + length batchData)%nat.
Proof.
  revert groups. induction batchData as [|r l IH]; intros groups; simpl.
  - lia.
  - rewrite IH, add_request_total. lia.
Qed.

Lemma schemaGroups_total batchData :
  sum_list_with (fun entry => length entry.2) (map_to_list (schemaGroups batchData))
  = length batchData.
Proof.
  unfold schemaGroups.
  rewrite (fold_add_request_total batchData ∅), map_to_list_empty. reflexivity.
Qed.

(** X5.  The groups of a batch are a partition of it by size: the sizes of
    the groups add up to the length of the batch, no group is empty, and
    there are at most as many groups as requests; the empty batch has no
    group. *)
Theorem schemaGroups_sizes batchData :
  sum_list_with (fun entry => length entry.2) (map_to_list (schemaGroups batchData))
  = length batchData
  /\ (forall k g, schemaGroups batchData !! k = Some g -> g <> [])
  /\ (size (schemaGroups batchData) <= length batchData)%nat
  /\ (batchData = [] -> schemaGroups batchData = ∅).
Proof.
  assert (sum_list_with group_size (map_to_list (schemaGroups batchData))
          = length batchData) as Htotal.
  { apply schemaGroups_total. }
  assert (forall k g, schemaGroups batchData !! k = Some g -> g <> []) as Hne.
  { intros k g Hg. apply schemaGroups_Some in Hg. tauto. }
  split; [exact Htotal|]. split; [exact Hne|]. split.
  - rewrite <- Htotal, <- length_map_to_list.
    assert (Forall (fun entry => (1 <= group_size entry)%nat)
              (map_to_list (schemaGroups batchData))) as Hall.
    { apply Forall_forall. intros [k g] Hin.
      apply elem_of_map_to_list in Hin. apply Hne in Hin.
      unfold group_size. simpl. destruct g; [congruence | simpl; lia]. }
    exact (sum_list_with_length _ _ Hall).
  - intros ->. reflexivity.
Qed.

End GroupSizes.

(** ** What a flush hands to the executor *)

Section FlushAccounting.

Context {ES : Type}.
Variable ExecuteBatch :
  ES -> option SchemaInterface -> list row -> option error * ES.
Variable h : Heap.
Variable ctx : Context.

Lemma executed_rows_app tr1 tr2 :
  executed_rows (tr1 ++ tr2) = (executed_rows tr1 + executed_rows tr2)%nat.
Proof.
  induction tr1 as [|ev tr1 IH]; simpl; [reflexivity|].
  destruct ev; rewrite IH; lia.
Qed.

(** An assembly that completes has one row per request, and it completes
    under the nil key only for no request at all. *)
Lemma assemble_length schema total i requests t data t' :
  assemble h ctx schema total i requests t = (Returns (inr data), t') ->
  length data = length requests /\ (requests <> [] -> schema <> None).
Proof.
  revert i t data t'.
  induction requests as [|r rest IH]; intros i t data t' H; simpl in H.
  - injection H as <- _. split; [reflexivity | congruence].
  - destruct (if _ && _ then ctx_Err (ctx t) else None); [discriminate|].
    destruct schema as [s|]; simpl in H; [|discriminate].
    destruct (assemble h ctx (Some s) total (S i) rest _) as [[[e|d]|] t2] eqn:E;
      try discriminate.
    injection H as <- _. apply IH in E as [E _]. simpl.
    split; [congruence | discriminate].
Qed.

Lemma assemble_no_panic s total i requests t :
  (assemble h ctx (Some s) total i requests t).1 <> Panics.
Proof.
  revert i t. induction requests as [|r rest IH]; intros i t; simpl.
  - discriminate.
  - destruct (if _ && _ then ctx_Err (ctx t) else None); [discriminate|].
    specialize (IH (S i) (if (10000 <? Z.of_nat total) && (Z.of_nat i mod 1000 =? 0)
                          then S t else t)).
    destruct (assemble h ctx (Some s) total (S i) rest _) as [[[e|d]|] t2];
      simpl in *; congruence.
Qed.

(** The groups a flush has processed, with the result of each call. *)
Let processed := list (option SchemaInterface * list Request * option error).

Let events_of (done : processed) : list event :=
  List.concat (List.map (fun x => group_events x.1.1 (rows_of h x.1.1 x.1.2) x.2) done).

(** A flush processes a prefix of the groups, in the order of the range;
    each processed group has one row per request; the flush returns nil
    only after the last group, and it panics only on a group under the nil
    key. *)
Lemma process_groups_done order st :
  exists done : processed,
    trace (process_groups ExecuteBatch h ctx order st).2
      = (trace st ++ events_of done)%list
    /\ List.map fst done `prefix_of` order
    /\ Forall (fun x => length (rows_of h x.1.1 x.1.2) = length x.1.2) done
    /\ ((process_groups ExecuteBatch h ctx order st).1 = Returns None ->
        List.map fst done = order /\ Forall (fun x => x.2 = None) done)
    /\ ((process_groups ExecuteBatch h ctx order st).1 = Panics ->
        exists g, (None, g) ∈ order).
Proof.
  revert st. induction order as [|[schema requests] rest IH]; intros st; simpl.
  - exists []. simpl. rewrite app_nil_r.
    repeat split; try constructor; try discriminate. apply prefix_nil.
  - destruct (ctx_Err (ctx (clock st))) as [err|].
    { exists []. simpl. rewrite app_nil_r.
      repeat split; try constructor; try discriminate. apply prefix_nil. }
    destruct (assemble h ctx schema (length requests) 0 requests _)
      as [[[err|data]|] t] eqn:E; simpl.
    + exists []. simpl. rewrite app_nil_r.
      repeat split; try constructor; try discriminate. apply prefix_nil.
    + pose proof (assemble_length _ _ _ _ _ _ _ E) as [Hlen _].
      pose proof (assemble_rows h ctx _ _ _ _ _ _ _ E) as ->.
      destruct (ExecuteBatch (executor st) schema (rows_of h schema requests))
        as [[err|] es] eqn:Hexec; simpl.
      * exists [(schema, requests, Some err)]. unfold events_of, group_events.
        simpl. rewrite Hlen, <- !app_assoc. simpl.
        split; [reflexivity|]. split; [apply prefix_cons, prefix_nil|].
        split; [repeat constructor; exact Hlen|].
        split; discriminate.
      * match goal with |- context [process_groups _ _ _ rest ?s] =>
          destruct (IH s) as (done & Htr & Hpre & Hlens & Hnil & Hpanic) end.
        exists ((schema, requests, None) :: done).
        split; [|split; [|split; [|split]]].
        -- rewrite Htr. unfold events_of, group_events. simpl.
           rewrite Hlen, <- !app_assoc. reflexivity.
        -- simpl. apply prefix_cons. exact Hpre.
        -- constructor; assumption.
        -- intros Hout. destruct (Hnil Hout) as [Hmap Hall].
           split; [simpl; congruence | constructor; [reflexivity | exact Hall]].
        -- intros Hout. destruct (Hpanic Hout) as (g & Hg).
           exists g. right. exact Hg.
    + exists []. simpl. rewrite app_nil_r.
      split; [reflexivity|]. split; [apply prefix_nil|].
      split; [constructor|]. split; [discriminate|].
      intros _. destruct schema as [s|].
      * exfalso. apply (assemble_no_panic s (length requests) 0 requests (S (clock st))).
        simpl in E. rewrite E. reflexivity.
      * exists requests. left.
Qed.

End FlushAccounting.

Section FlushExtras.

Context {ES : Type}.
Variable ExecuteBatch :
  ES -> option SchemaInterface -> list row -> option error * ES.
Variable h : Heap.
Variable ctx : Context.

Lemma executed_rows_groups
    (done : list (option SchemaInterface * list Request * option error)) :
  executed_rows
    (List.concat (List.map (fun x => group_events x.1.1 (rows_of h x.1.1 x.1.2) x.2) done))
  = sum_list_with (fun x => length (rows_of h x.1.1 x.1.2)) done.
Proof.
  induction done as [|x done IH]; simpl; [reflexivity|].
  rewrite IH. lia.
Qed.

Lemma sum_list_with_prefix {A} (f : A -> nat) (l1 l2 : list A) :
  l1 `prefix_of` l2 -> (sum_list_with f l1 <= sum_list_with f l2)%nat.
Proof.
  intros [k ->]. rewrite sum_list_with_app. lia.
Qed.

Lemma sum_list_with_map {A B} (f : B -> nat) (g : A -> B) (l : list A) :
  sum_list_with f (List.map g l) = sum_list_with (fun x => f (g x)) l.
Proof.
  induction l as [|x l IH]; simpl; [reflexivity|]. rewrite IH. reflexivity.
Qed.

Lemma sum_list_with_ext_Forall {A} (f g : A -> nat) (l : list A) :
  Forall (fun x => f x = g x) l -> sum_list_with f l = sum_list_with g l.
Proof.
  induction 1 as [|x l Hx _ IH]; simpl; [reflexivity|]. rewrite Hx, IH. reflexivity.
Qed.

(** X6.  The trace of a flush is a sequence of triples, one per processed
    group: the batch-size observation, the assemble observation and the
    [ExecuteBatch] call, and the observed batch size is exactly the number
    of rows of that call.  Nothing is reported for a group that is not
    handed to the executor. *)
Theorem flush_trace_shape order es :
  exists calls : list (option SchemaInterface * list row * option error),
    trace (flushFunc ExecuteBatch h ctx order es).2
    = List.concat (List.map (fun c => group_events c.1.1 c.1.2 c.2) calls)
    /\ (length calls <= length order)%nat.
Proof.
  unfold flushFunc.
  destruct (process_groups_done ExecuteBatch h ctx order (start es))
    as (done & Htr & Hpre & _).
  exists (List.map (fun x => (x.1.1, rows_of h x.1.1 x.1.2, x.2)) done).
  split.
  - rewrite Htr. simpl. rewrite List.map_map. reflexivity.
  - rewrite length_map, <- (length_map fst done). apply prefix_length. exact Hpre.
Qed.

(** X7.  A flush never hands more rows to the executor than the batch has
    requests, and a flush that returns nil has handed over exactly as many
    rows as the batch has requests: on the success path no record is lost
    and none is sent twice. *)
Theorem flush_conserves_rows batchData order es :
  range_of (schemaGroups batchData) order ->
  (executed_rows (trace (flushFunc ExecuteBatch h ctx order es).2)
   <= length batchData)%nat
  /\ ((flushFunc ExecuteBatch h ctx order es).1 = Returns None ->
      executed_rows (trace (flushFunc ExecuteBatch h ctx order es).2)
      = length batchData).
Proof.
  intros Hrange. unfold flushFunc.
  destruct (process_groups_done ExecuteBatch h ctx order (start es))
    as (done & Htr & Hpre & Hlens & Hnil & _).
  assert (sum_list_with (fun entry => length entry.2) order = length batchData)
    as Htotal.
  { unfold range_of in Hrange. rewrite Hrange.
    apply schemaGroups_total. }
  assert (executed_rows (trace (process_groups ExecuteBatch h ctx order (start es)).2)
          = sum_list_with (fun entry => length entry.2) (List.map fst done))
    as Hrows.
  { rewrite Htr. simpl. rewrite executed_rows_groups, sum_list_with_map.
    apply sum_list_with_ext_Forall. exact Hlens. }
  rewrite Hrows, <- Htotal. split.
  - apply sum_list_with_prefix. exact Hpre.
  - intros Hout. destruct (Hnil Hout) as [-> _]. reflexivity.
Qed.

(** A flush panics only on a request without a schema. *)
Lemma flush_no_panic batchData order es :
  range_of (schemaGroups batchData) order ->
  Forall (fun r => SchemaOf r <> None) batchData ->
  (flushFunc ExecuteBatch h ctx order es).1 <> Panics.
Proof.
  intros Hrange Hall Hpanic. unfold flushFunc in Hpanic.
  destruct (process_groups_done ExecuteBatch h ctx order (start es))
    as (_ & _ & _ & _ & _ & Hnone).
  destruct (Hnone Hpanic) as (g & Hg).
  apply (range_of_elem batchData order) in Hg; [|assumption].
  apply schemaGroups_Some in Hg as [-> Hne].
  destruct (filter _ batchData) as [|r l] eqn:E; [congruence|].
  assert (r ∈ r :: l) as Hr by left.
  rewrite <- E in Hr. apply list_elem_of_filter in Hr as [Hnil Hin].
  rewrite Forall_forall in Hall. exact (Hall r Hin Hnil).
Qed.

(** X8.  What [Submit] lets into an empty buffer, the flush function can
    process: whatever calls filled the buffer, in whatever order the runtime
    ranges over the groups, with whatever executor and context, a flush of
    the buffered requests does not panic. *)
Theorem flush_of_submitted_no_panic b calls order es :
  dataChan b = [] ->
  range_of (schemaGroups (dataChan (Submits h b calls))) order ->
  (flushFunc ExecuteBatch h ctx order es).1 <> Panics.
Proof.
  intros Hempty Hrange.
  apply (flush_no_panic (dataChan (Submits h b calls))); [exact Hrange|].
  destruct (Submits_effect h b calls) as (Hbuf & _ & Hvalid).
  rewrite Hbuf, Hempty. simpl.
  eapply Forall_impl; [exact Hvalid|].
  intros r (r' & schema & [= <-] & Hs & _). congruence.
Qed.

End FlushExtras.

(** ** How often the assembly looks at the context *)

Section AssemblyChecks.

Context {ES : Type}.
Variable ExecuteBatch :
  ES -> option SchemaInterface -> list row -> option error * ES.
Variable h : Heap.
Variable ctx : Context.

(** A group of at most 10000 requests is assembled without a look at the
    context. *)
Lemma assemble_small schema total i requests t :
  Z.of_nat total <= 10000 ->
  (assemble h ctx schema total i requests t).2 = t
  /\ forall err, (assemble h ctx schema total i requests t).1 <> Returns (inl err).
Proof.
  intros Hsmall. apply Z.ltb_ge in Hsmall.
  revert i t. induction requests as [|r rest IH]; intros i t; simpl.
  - split; [reflexivity | discriminate].
  - rewrite Hsmall. simpl. destruct schema as [s|]; simpl.
    + specialize (IH (S i) t).
      destruct (assemble h ctx (Some s) total (S i) rest t) as [[[e|d]|] t2];
        simpl in *; destruct IH as [-> IH]; (split; [reflexivity|]).
      * intros err. exfalso. exact (IH e eq_refl).
      * discriminate.
      * discriminate.
    + split; [reflexivity | discriminate].
Qed.

Lemma checks_between_step i n :
  checks_between i (S n)
  = (if Z.of_nat i mod 1000 =? 0 then 1 else 0) + checks_between (S i) n.
Proof.
  unfold checks_between.
  replace (Z.of_nat (i + S n)) with (Z.of_nat (S i + n)) by lia.
  replace (Z.of_nat (S i)) with (Z.of_nat i + 1) by lia.
  destruct (Z.eqb_spec (Z.of_nat i mod 1000) 0) as [Hz|Hnz];
    Z.div_mod_to_equations; lia.
Qed.

Lemma checks_between_nonneg i n : 0 <= checks_between i n.
Proof.
  unfold checks_between. Z.div_mod_to_equations. lia.
Qed.

Lemma assemble_large s total i requests t :
  10000 < Z.of_nat total ->
  (forall k, ctx k = Live) ->
  assemble h ctx (Some s) total i requests t
  = (Returns (inr (rows_of h (Some s) requests)),
     (t + Z.to_nat (checks_between i (length requests)))%nat).
Proof.
  intros Hlarge Hlive. apply Z.ltb_lt in Hlarge.
  revert i t. induction requests as [|r rest IH]; intros i t.
  - simpl. unfold checks_between. rewrite Nat.add_0_r, Z.sub_diag. simpl.
    rewrite Nat.add_0_r. reflexivity.
  - cbn [assemble]. rewrite Hlarge. cbn [andb].
    pose proof (checks_between_step i (length rest)) as Hstep.
    pose proof (checks_between_nonneg (S i) (length rest)) as Hnonneg.
    cbn [length]. rewrite Hstep.
    destruct (Z.of_nat i mod 1000 =? 0); rewrite ?Hlive; cbn [ctx_Err key_Columns];
      rewrite IH; cbn [rows_of List.map]; f_equal; lia.
Qed.

(** X9.  When no group has more than 10000 requests, the flush looks at the
    context once per group it starts and never while it assembles the rows:
    it makes at most as many observations as there are groups, and exactly
    as many when it returns nil.  The bound is strict, a group of exactly
    10000 requests is assembled without a check. *)
Theorem flush_small_groups order es :
  Forall (fun entry => Z.of_nat (length entry.2) <= 10000) order ->
  (clock (flushFunc ExecuteBatch h ctx order es).2 <= length order)%nat
  /\ ((flushFunc ExecuteBatch h ctx order es).1 = Returns None ->
      clock (flushFunc ExecuteBatch h ctx order es).2 = length order).
Proof.
  intros Hsmall. unfold flushFunc.
  assert (forall st,
            (clock (process_groups ExecuteBatch h ctx order st).2
             <= clock st + length order)%nat
            /\ ((process_groups ExecuteBatch h ctx order st).1 = Returns None ->
                clock (process_groups ExecuteBatch h ctx order st).2
                = (clock st + length order)%nat)) as Hgen.
  { induction Hsmall as [|[schema requests] rest Hx _ IH]; intros st; simpl.
    - split; [lia | intros _; lia].
    - destruct (ctx_Err (ctx (clock st))); simpl; [split; [lia | discriminate]|].
      pose proof (assemble_small schema (length requests) 0 requests (S (clock st)) Hx)
        as [Hclock Herr].
      destruct (assemble h ctx schema (length requests) 0 requests (S (clock st)))
        as [[[err|data]|] t]; simpl in *; subst t.
      + exfalso. exact (Herr err eq_refl).
      + destruct (ExecuteBatch (executor st) schema data) as [[err|] es']; simpl.
        * split; [lia | discriminate].
        * match goal with |- context [process_groups _ _ _ rest ?s] =>
            destruct (IH s) as [Hle Heq] end.
          simpl in *. split; [lia|]. intros Hout. rewrite (Heq Hout). lia.
      + split; [lia | discriminate]. }
  exact (Hgen (start es)).
Qed.

(** X10.  In a group of more than 10000 requests, under a context that
    stays live, the assembly looks at the context before the rows 0, 1000,
    2000 and so on: [ceil(n / 1000)] times for [n] requests, and it builds
    the row of every request. *)
Theorem assemble_large_group s requests t :
  10000 < Z.of_nat (length requests) ->
  (forall k, ctx k = Live) ->
  assemble h ctx (Some s) (length requests) 0 requests t
  = (Returns (inr (rows_of h (Some s) requests)),
     (t + Z.to_nat ((Z.of_nat (length requests) + 999) / 1000))%nat).
Proof.
  intros Hlarge Hlive.
  rewrite (assemble_large s (length requests) 0 requests t Hlarge Hlive).
  unfold checks_between. simpl. rewrite Z.sub_0_r. reflexivity.
Qed.

End AssemblyChecks.

(** ** The processors: generating, queueing and executing *)

Section ProcessorExtras.

Lemma SQL_ExecuteOperations_statement bp own next ctx sql args :
  (SQLBatchProcessor.ExecuteOperations bp own next ctx
     (OpValue (AString sql) :: args)).1
  = match SQLBatchProcessor.ExecContext (SQLBatchProcessor.db bp)
            (processor_context (SQLBatchProcessor.timeout bp) own next ctx)
            sql args with
    | Some err =>
        if errors_Is err DeadlineExceeded
        then Some (default err
                     (context_Cause
                        (processor_context (SQLBatchProcessor.timeout bp)
                           own next ctx 0%nat)))
        else Some err
    | None => None
    end.
Proof.
  unfold SQLBatchProcessor.ExecuteOperations, processor_context.
  destruct (0 <? SQLBatchProcessor.timeout bp); simpl;
    match goal with |- context [SQLBatchProcessor.ExecContext ?d ?c ?s ?a] =>
      destruct (SQLBatchProcessor.ExecContext d c s a) as [err|] end;
    try reflexivity;
    destruct (errors_Is err DeadlineExceeded); try reflexivity;
    match goal with |- context [context_Cause ?x] =>
      destruct (context_Cause x) end; reflexivity.
Qed.

(** X11.  What the relational processor generates, it executes: the
    operations of a successful [GenerateOperations] are the driver's
    statement followed by its arguments, [ExecuteOperations] calls the
    database with exactly these, returns nil exactly when the database
    does, and returns a database error that is not a deadline error as it
    is.  It never answers them with "empty operations" or "invalid
    operation type". *)
Theorem SQL_generate_then_execute driver bp h own next ctx ctx' schema data
    operations next' :
  SQLBatchProcessor.GenerateOperations driver h next ctx schema data
  = (inr operations, next') ->
  exists p sql args,
    schema = Some (PtrSQLSchema p)
    /\ SQLBatchProcessor.GenerateInsertSQL driver ctx (sqlschema_at h p) data
       = inr (sql, args)
    /\ length operations = S (length args)
    /\ ((SQLBatchProcessor.ExecuteOperations bp own next' ctx' operations).1 = None
        <-> SQLBatchProcessor.ExecContext (SQLBatchProcessor.db bp)
              (processor_context (SQLBatchProcessor.timeout bp) own next' ctx')
              sql (List.map OpValue args) = None)
    /\ (forall err,
          SQLBatchProcessor.ExecContext (SQLBatchProcessor.db bp)
            (processor_context (SQLBatchProcessor.timeout bp) own next' ctx')
            sql (List.map OpValue args) = Some err ->
          errors_Is err DeadlineExceeded = false ->
          (SQLBatchProcessor.ExecuteOperations bp own next' ctx' operations).1
          = Some err).
Proof.
  unfold SQLBatchProcessor.GenerateOperations. intros Hgen.
  destruct schema as [[p|p]|]; simpl in Hgen; try discriminate.
  destruct (SQLBatchProcessor.GenerateInsertSQL driver ctx (sqlschema_at h p) data)
    as [e|[sql args]] eqn:Hdriver; [discriminate|].
  injection Hgen as <- <-.
  exists p, sql, args. split; [reflexivity|]. split; [exact Hdriver|].
  split; [simpl; rewrite length_map; reflexivity|].
  rewrite SQL_ExecuteOperations_statement.
  destruct (SQLBatchProcessor.ExecContext _ _ sql (List.map OpValue args))
    as [err|]; split.
  - split; [|discriminate]. destruct (errors_Is err DeadlineExceeded); discriminate.
  - intros err' [= <-] ->. reflexivity.
  - split; reflexivity.
  - discriminate.
Qed.

Lemma queue_all_live c i operations queued :
  (forall k, (k < length operations)%nat -> c (i + k)%nat = Live) ->
  RedisBatchProcessor.queue_all c i operations queued
  = (inr (queued ++ commands_of operations)%list, (i + length operations)%nat).
Proof.
  revert i queued. induction operations as [|op rest IH]; intros i queued Hlive.
  - simpl. rewrite app_nil_r, Nat.add_0_r. reflexivity.
  - simpl. pose proof (Hlive 0%nat ltac:(simpl; lia)) as H0.
    rewrite Nat.add_0_r in H0. rewrite H0. simpl.
    rewrite IH.
    + replace (S i + length rest)%nat with (i + S (length rest))%nat by lia.
      destruct op; simpl; [reflexivity|]. rewrite <- app_assoc. reflexivity.
    + intros k Hk. replace (S i + k)%nat with (i + S k)%nat by lia.
      apply Hlive. simpl. lia.
Qed.

Lemma queue_all_done c i j operations queued e cause :
  (forall k, (k < j)%nat -> c (i + k)%nat = Live) ->
  c (i + j)%nat = Done e cause ->
  (j < length operations)%nat ->
  RedisBatchProcessor.queue_all c i operations queued
  = (inl (ctx_error_to_error e), S (i + j)).
Proof.
  revert i j queued.
  induction operations as [|op rest IH]; intros i j queued Hlive Hdone Hj.
  - simpl in Hj. lia.
  - simpl. destruct j as [|j].
    + rewrite Nat.add_0_r in Hdone. rewrite Hdone. simpl.
      rewrite Nat.add_0_r. reflexivity.
    + pose proof (Hlive 0%nat ltac:(lia)) as H0.
      rewrite Nat.add_0_r in H0. rewrite H0. simpl.
      rewrite (IH (S i) j _).
      * replace (S i + j)%nat with (i + S j)%nat by lia. reflexivity.
      * intros k Hk. replace (S i + k)%nat with (i + S k)%nat by lia.
        apply Hlive. lia.
      * replace (S i + j)%nat with (i + S j)%nat by lia. exact Hdone.
      * simpl in Hj. lia.
Qed.

Lemma Redis_ExecuteOperations_unfold rp own next ctx operations :
  (RedisBatchProcessor.ExecuteOperations rp own next ctx operations).1
  = match RedisBatchProcessor.queue_all
            (processor_context (RedisBatchProcessor.timeout rp) own next ctx)
            0 operations [] with
    | (inl err, _) => Some err
    | (inr queued, i) =>
        match RedisBatchProcessor.Exec (RedisBatchProcessor.client rp)
                (processor_context (RedisBatchProcessor.timeout rp) own next ctx)
                queued with
        | (_, Some err) =>
            if errors_Is err DeadlineExceeded
            then Some (default err
                         (context_Cause
                            (processor_context (RedisBatchProcessor.timeout rp)
                               own next ctx i)))
            else Some err
        | (cmds, None) => RedisBatchProcessor.join_results cmds None
        end
    end.
Proof.
  unfold RedisBatchProcessor.ExecuteOperations, processor_context.
  destruct (0 <? RedisBatchProcessor.timeout rp); simpl;
    match goal with |- context [RedisBatchProcessor.queue_all ?c 0 ?o []] =>
      destruct (RedisBatchProcessor.queue_all c 0 o []) as [[e|queued] i] end;
    try reflexivity;
    match goal with |- context [RedisBatchProcessor.Exec ?cl ?c ?q] =>
      destruct (RedisBatchProcessor.Exec cl c q) as [cmds [err|]] end;
    try reflexivity;
    destruct (errors_Is err DeadlineExceeded); try reflexivity;
    match goal with |- context [context_Cause ?x] =>
      destruct (context_Cause x) end; reflexivity.
Qed.

Lemma join_results_is results acc target :
  is_error (RedisBatchProcessor.join_results results acc) target
  = is_error acc target
    || existsb (fun r => is_error r target) results.
Proof.
  unfold RedisBatchProcessor.join_results.
  revert acc. induction results as [|r results IH]; intros acc; simpl.
  - rewrite orb_false_r. reflexivity.
  - rewrite IH. destruct r as [e|]; simpl; [|reflexivity].
    destruct acc as [x|]; simpl; rewrite ?orb_false_r, ?orb_assoc; reflexivity.
Qed.

Lemma join_results_nil results acc :
  RedisBatchProcessor.join_results results acc = None
  <-> acc = None /\ Forall (fun r => r = None) results.
Proof.
  unfold RedisBatchProcessor.join_results.
  revert acc. induction results as [|r results IH]; intros acc; simpl.
  - split; [intros ->; split; [reflexivity | constructor] | tauto].
  - rewrite IH. destruct r as [e|]; simpl.
    + split.
      * intros [H _]. destruct acc; discriminate.
      * intros [_ H]. inversion H; discriminate.
    + split.
      * intros [-> H]. split; [reflexivity | constructor; auto].
      * intros [-> H]. inversion H; subst. split; auto.
Qed.

End ProcessorExtras.

Lemma commands_of_commands cmds : commands_of (List.map OpCmd cmds) = cmds.
Proof.
  unfold commands_of. induction cmds as [|c cmds IH]; simpl; [reflexivity|].
  f_equal. exact IH.
Qed.

(** X12.  What the key-value processor generates, it executes: the
    operations of a successful [GenerateOperations] are the driver's
    commands, one operation each, and under a context that is live while
    they are queued [ExecuteOperations] returns nil exactly when the
    pipeline of these commands, in the driver's order, reports no error for
    the batch and none for any command. *)
Theorem Redis_generate_then_execute driver rp h own next ctx ctx' schema data
    operations next' :
  RedisBatchProcessor.GenerateOperations driver h next ctx schema data
  = (inr operations, next') ->
  (forall k, (k < length operations)%nat ->
     processor_context (RedisBatchProcessor.timeout rp) own next' ctx' k = Live) ->
  exists p cmds,
    schema = Some (PtrSchema p)
    /\ RedisBatchProcessor.GenerateCmds driver ctx (schema_at h p) data = inr cmds
    /\ length operations = length cmds
    /\ ((RedisBatchProcessor.ExecuteOperations rp own next' ctx' operations).1 = None
        <-> exists results,
              RedisBatchProcessor.Exec (RedisBatchProcessor.client rp)
                (processor_context (RedisBatchProcessor.timeout rp) own next' ctx')
                cmds = (results, None)
              /\ Forall (fun r => r = None) results).
Proof.
  unfold RedisBatchProcessor.GenerateOperations. intros Hgen Hlive.
  destruct schema as [[p|p]|]; simpl in Hgen; try discriminate.
  destruct (RedisBatchProcessor.GenerateCmds driver ctx (schema_at h p) data)
    as [e|cmds] eqn:Hdriver; [discriminate|].
  injection Hgen as <- <-.
  exists p, cmds. split; [reflexivity|]. split; [exact Hdriver|].
  split; [apply length_map|].
  rewrite Redis_ExecuteOperations_unfold.
  rewrite (queue_all_live _ 0 _ [] Hlive). simpl. rewrite commands_of_commands.
  destruct (RedisBatchProcessor.Exec _ _ cmds) as [results [err|]]; split.
  - destruct (errors_Is err DeadlineExceeded); discriminate.
  - intros (results' & Heq & _). discriminate.
  - intros Hnil. apply join_results_nil in Hnil as [_ Hall].
    exists results. split; [reflexivity | exact Hall].
  - intros (results' & [= <-] & Hall). apply join_results_nil. split; auto.
Qed.

(** X13.  The key-value processor never rejects an operation for its type:
    under a context that stays live, operations that are not commands are
    skipped, and the result is that of the commands alone, in their
    order. *)
Theorem Redis_skips_other_operations rp own next ctx operations :
  (forall k, processor_context (RedisBatchProcessor.timeout rp) own next ctx k
             = Live) ->
  (RedisBatchProcessor.ExecuteOperations rp own next ctx operations).1
  = (RedisBatchProcessor.ExecuteOperations rp own next ctx
       (List.map OpCmd (commands_of operations))).1.
Proof.
  intros Hlive. rewrite !Redis_ExecuteOperations_unfold.
  rewrite !(queue_all_live _ 0 _ []) by (intros; apply Hlive).
  simpl. rewrite commands_of_commands, !Hlive. reflexivity.
Qed.

(** X14.  The key-value processor looks at its context before every
    operation: when the context is first found done before the operation at
    position [j], [ExecuteOperations] returns the context's error, whatever
    the client would have answered for the pipeline. *)
Theorem Redis_stops_at_done_context rp own next ctx operations j e cause :
  (forall k, (k < j)%nat ->
     processor_context (RedisBatchProcessor.timeout rp) own next ctx k = Live) ->
  processor_context (RedisBatchProcessor.timeout rp) own next ctx j
  = Done e cause ->
  (j < length operations)%nat ->
  (RedisBatchProcessor.ExecuteOperations rp own next ctx operations).1
  = Some (ctx_error_to_error e).
Proof.
  intros Hlive Hdone Hj. rewrite Redis_ExecuteOperations_unfold.
  rewrite (queue_all_done _ 0 j operations [] e cause); auto.
Qed.

(** X15.  When the pipeline itself reports no error, the error of
    [ExecuteOperations] joins the errors of the commands: it is nil exactly
    when every command succeeded, and [errors.Is] finds a target in it
    exactly when it finds the target in the error of some command. *)
Theorem Redis_joins_command_errors rp own next ctx operations results :
  (forall k, (k < length operations)%nat ->
     processor_context (RedisBatchProcessor.timeout rp) own next ctx k = Live) ->
  RedisBatchProcessor.Exec (RedisBatchProcessor.client rp)
    (processor_context (RedisBatchProcessor.timeout rp) own next ctx)
    (commands_of operations) = (results, None) ->
  ((RedisBatchProcessor.ExecuteOperations rp own next ctx operations).1 = None
   <-> Forall (fun r => r = None) results)
  /\ forall target,
       is_error (RedisBatchProcessor.ExecuteOperations rp own next ctx operations).1
         target
       = existsb (fun r => is_error r target) results.
Proof.
  intros Hlive Hexec. rewrite Redis_ExecuteOperations_unfold.
  rewrite (queue_all_live _ 0 _ [] Hlive). simpl. rewrite Hexec. split.
  - rewrite join_results_nil. tauto.
  - intros target. rewrite join_results_is. reflexivity.
Qed.

(** ** The pipeline's metrics hook *)

Section AdapterFacts.

Import pipelineMetricsAdapter.

Lemma run_cons a hk hooks : run a (hk :: hooks) = (dispatch a hk ++ run a hooks)%list.
Proof. reflexivity. Qed.

(** X16.  Over any sequence of hook calls the adapter reports a batch size
    for exactly the flushes of at least one item, in their order, and never
    a size of zero or less; it reports one drop, with the reason
    "error_chan_full", per [ErrorDropped] when the reporter implements the
    pipeline extension and none otherwise; it reports nothing for [Error],
    and nothing at all without a reporter.  An adapter that
    [attachPipelineMetrics] has attached always has a reporter. *)
Theorem adapter_reports a hooks :
  (forall r, reporter a = Some r ->
     omap (fun x => match x with ReportBatchSize n => Some n | _ => None end)
       (run a hooks)
     = omap flushed_items hooks
     /\ List.filter (fun x => negb (is_batch_size x)) (run a hooks)
        = (if implements_pipeline r
           then List.map (fun _ => ReportDropped "error_chan_full")
                  (List.filter is_dropped hooks)
           else []))
  /\ (reporter a = None -> run a hooks = [])
  /\ Forall (fun x => match x with
                      | ReportBatchSize n => 0 < n
                      | ReportDropped reason => reason = "error_chan_full"
                      end) (run a hooks)
  /\ (forall p previous r a',
        attachPipelineMetrics p previous r = Some a' ->
        Some a' <> previous -> reporter a' <> None).
Proof.
  split; [|split; [|split]].
  - intros r Hr.
    induction hooks as [|hk hooks [IH1 IH2]];
      [split; [reflexivity | destruct (implements_pipeline r); reflexivity]|].
    rewrite run_cons. rewrite omap_app, List.filter_app, IH1, IH2.
    destruct hk as [items d|err|]; simpl; unfold Flush, ErrorDropped, pmr;
      rewrite ?Hr; simpl.
    + destruct (0 <? items); simpl; split; reflexivity.
    + split; reflexivity.
    + destruct (implements_pipeline r); simpl; split; reflexivity.
  - intros Hnone. induction hooks as [|hk hooks IH]; [reflexivity|].
    rewrite run_cons, IH.
    destruct hk; simpl; unfold Flush, ErrorDropped, pmr; rewrite ?Hnone; reflexivity.
  - induction hooks as [|hk hooks IH]; [constructor|].
    rewrite run_cons. apply Forall_app. split; [|exact IH].
    destruct hk as [items d|err|]; simpl; unfold Flush, ErrorDropped, pmr.
    + destruct (reporter a); [|constructor].
      destruct (Z.ltb_spec 0 items); repeat constructor; assumption.
    + constructor.
    + destruct (reporter a) as [r|]; [|constructor].
      destruct (implements_pipeline r); repeat constructor.
  - intros p previous r a' Hattach Hnew. unfold attachPipelineMetrics in Hattach.
    destruct p; [congruence|]. destruct r as [r|]; [|congruence].
    injection Hattach as <-. discriminate.
Qed.

End AdapterFacts.

(** ** The counting reporter of the executor's tests *)

Section RetryMetricsFacts.

Import retryMetrics.

Lemma substring_0_0 s : String.substring 0 0 s = "".
Proof. destruct s; reflexivity. Qed.

Lemma prefix_empty s : String.prefix "" s = true.
Proof. destruct s; reflexivity. Qed.

(** Go's test of the first bytes of a string is the prefix test. *)
Lemma first_bytes_prefix pre kind :
  (String.length pre <=? String.length kind)%nat
  && String.eqb (String.substring 0 (String.length pre) kind) pre
  = String.prefix pre kind.
Proof.
  revert kind. induction pre as [|a pre IH]; intros kind.
  - simpl. rewrite substring_0_0, prefix_empty. reflexivity.
  - destruct kind as [|c kind]; [reflexivity|].
    cbn [String.length String.substring String.prefix String.eqb].
    change (S (String.length pre) <=? S (String.length kind))%nat
      with (String.length pre <=? String.length kind)%nat.
    destruct (Ascii.ascii_dec a c) as [->|Hne].
    + rewrite Ascii.eqb_refl. simpl. apply IH.
    + assert (Ascii.eqb c a = false) as -> by (apply Ascii.eqb_neq; congruence).
      simpl. apply andb_false_r.
Qed.

Lemma first6_is_prefix kind pre :
  String.length pre = 6%nat -> first6_is kind pre = String.prefix pre kind.
Proof.
  intros Hlen. unfold first6_is. rewrite <- first_bytes_prefix, Hlen. reflexivity.
Qed.

Lemma wrap32_add a b : wrap32 (wrap32 a + b) = wrap32 (a + b).
Proof.
  unfold wrap32. f_equal.
  replace ((a + 2 ^ 31) mod 2 ^ 32 - 2 ^ 31 + b + 2 ^ 31)
    with ((a + 2 ^ 31) mod 2 ^ 32 + b) by lia.
  rewrite Zplus_mod_idemp_l. f_equal. lia.
Qed.

Lemma wrap32_small z : - 2 ^ 31 <= z < 2 ^ 31 -> wrap32 z = z.
Proof.
  intros Hz. unfold wrap32. rewrite Z.mod_small by lia. lia.
Qed.

Lemma retry_not_final kind :
  String.prefix "retry:" kind = true -> String.prefix "final:" kind = false.
Proof.
  destruct kind as [|c kind]; [discriminate|]. cbn [String.prefix].
  match goal with |- context [Ascii.ascii_dec ?a c] =>
    destruct (Ascii.ascii_dec a c) as [<-|] end; [reflexivity | discriminate].
Qed.

Lemma after_counts calls m r f i :
  retry m = wrap32 r -> final m = wrap32 f -> inflight m = wrap32 i ->
  retry (after m calls) = wrap32 (r + errors_with "retry:" calls)
  /\ final (after m calls) = wrap32 (f + errors_with "final:" calls)
  /\ inflight (after m calls) = wrap32 (i + (increments calls - decrements calls)).
Proof.
  revert m r f i. unfold after, errors_with, increments, decrements.
  induction calls as [|c calls IH]; intros m r f i Hr Hf Hi.
  - simpl. rewrite !Z.add_0_r. auto.
  - cbn [fold_left List.filter]. destruct c as [table kind| |]; cbn [apply_call].
    + unfold IncError. rewrite !first6_is_prefix by reflexivity.
      destruct (String.prefix "retry:" kind) eqn:Hretry.
      * rewrite (retry_not_final kind Hretry).
        destruct (IH {| retry := wrap32 (retry m + 1); final := final m;
                        inflight := inflight m |} (r + 1) f i)
          as (H1 & H2 & H3); simpl; auto.
        { rewrite Hr. apply wrap32_add. }
        rewrite H1, H2, H3. cbn [length]. repeat split; f_equal; lia.
      * destruct (String.prefix "final:" kind) eqn:Hfinal.
        -- destruct (IH {| retry := retry m; final := wrap32 (final m + 1);
                           inflight := inflight m |} r (f + 1) i)
             as (H1 & H2 & H3); simpl; auto.
           { rewrite Hf. apply wrap32_add. }
           rewrite H1, H2, H3. cbn [length]. repeat split; f_equal; lia.
        -- apply IH; assumption.
    + destruct (IH (IncInflight m) r f (i + 1)) as (H1 & H2 & H3); simpl; auto.
      { rewrite Hi. apply wrap32_add. }
      rewrite H1, H2, H3. cbn [length]. repeat split; f_equal; lia.
    + destruct (IH (DecInflight m) r f (i + -1)) as (H1 & H2 & H3); simpl; auto.
      { rewrite Hi. apply wrap32_add. }
      rewrite H1, H2, H3. cbn [length]. repeat split; f_equal; lia.
Qed.

Lemma filter_length_le {A} (f : A -> bool) (l : list A) :
  (length (List.filter f l) <= length l)%nat.
Proof.
  induction l as [|x l IH]; simpl; [lia|]. destruct (f x); simpl; lia.
Qed.

(** X17.  Started at zero and over fewer than 2^31 calls, the test
    reporter's [retry] counter is the number of [IncError] calls whose kind
    starts with "retry:", its [final] counter the number of those whose
    kind starts with "final:" (a kind shorter than six bytes counts for
    neither, and no kind for both), and its [inflight] counter the number
    of [IncInflight] calls minus the number of [DecInflight] calls: it is
    back at zero exactly when the two numbers are equal. *)
Theorem retryMetrics_counts calls :
  Z.of_nat (length calls) < 2 ^ 31 ->
  retry (after zero calls) = errors_with "retry:" calls
  /\ final (after zero calls) = errors_with "final:" calls
  /\ inflight (after zero calls) = increments calls - decrements calls
  /\ (inflight (after zero calls) = 0 <-> increments calls = decrements calls)
  /\ errors_with "retry:" calls + errors_with "final:" calls
     <= Z.of_nat (length calls).
Proof.
  intros Hlen.
  destruct (after_counts calls zero 0 0 0) as (H1 & H2 & H3); try reflexivity.
  assert (forall f : reporter_call -> bool,
            0 <= Z.of_nat (length (List.filter f calls)) <= Z.of_nat (length calls))
    as Hbound.
  { intros f. pose proof (filter_length_le f calls). lia. }
  unfold errors_with, increments, decrements in *.
  pose proof (Hbound (fun c => match c with
                               | CallIncError _ kind => String.prefix "retry:" kind
                               | _ => false end)) as Hb1.
  pose proof (Hbound (fun c => match c with
                               | CallIncError _ kind => String.prefix "final:" kind
                               | _ => false end)) as Hb2.
  pose proof (Hbound (fun c => match c with CallIncInflight => true | _ => false end))
    as Hb3.
  pose proof (Hbound (fun c => match c with CallDecInflight => true | _ => false end))
    as Hb4.
  rewrite H1, H2, H3, !wrap32_small by lia.
  split; [lia|]. split; [lia|]. split; [lia|]. split; [lia|].
  clear - calls. induction calls as [|c calls IH]; simpl; [lia|].
  destruct c as [table kind| |]; simpl; try lia.
  destruct (String.prefix "retry:" kind) eqn:Hretry.
  - rewrite (retry_not_final kind Hretry). simpl. lia.
  - destruct (String.prefix "final:" kind); simpl; lia.
Qed.

End RetryMetricsFacts.

(** ** The integration tests' report helpers *)

Section IntegrationFacts.

Variable F : FloatOps.

(** X18.  [calculateDataIntegrity] calls the throughput valid exactly when
    the database holds exactly the submitted number of records and that
    number is positive; the rate is then the constant 100.  It is the
    constant 0, and the throughput invalid, when the actual count is
    negative (unknown) or nothing was submitted. *)
Theorem calculateDataIntegrity_valid submitted actual :
  (DataIntegrity.rpsValid (calculateDataIntegrity F submitted actual) = true
   <-> actual = submitted /\ 0 < submitted)
  /\ (DataIntegrity.rpsValid (calculateDataIntegrity F submitted actual) = true ->
      DataIntegrity.rate (calculateDataIntegrity F submitted actual) = f_hundred F)
  /\ (actual < 0 \/ submitted = 0 ->
      DataIntegrity.rate (calculateDataIntegrity F submitted actual) = f_zero F
      /\ DataIntegrity.rpsValid (calculateDataIntegrity F submitted actual) = false).
Proof.
  unfold calculateDataIntegrity.
  destruct (Z.ltb_spec actual 0) as [Hneg|Hpos]; simpl.
  { split; [split; [discriminate | lia]|]. split; [discriminate | auto]. }
  destruct (Z.eqb_spec submitted 0) as [Hzero|Hnz]; simpl.
  { split; [split; [discriminate | lia]|]. split; [discriminate | auto]. }
  destruct (Z.eqb_spec actual submitted) as [Heq|Hne]; simpl.
  { split; [split; [intros _; lia | reflexivity]|]. split; [reflexivity | lia]. }
  destruct (submitted <? actual); simpl;
    (split; [split; [discriminate | lia]|]; split; [discriminate | lia]).
Qed.

Lemma wrap64_add a b : wrap64 (wrap64 a + b) = wrap64 (a + b).
Proof.
  unfold wrap64. f_equal.
  replace ((a + 2 ^ 63) mod 2 ^ 64 - 2 ^ 63 + b + 2 ^ 63)
    with ((a + 2 ^ 63) mod 2 ^ 64 + b) by lia.
  rewrite Zplus_mod_idemp_l. f_equal. lia.
Qed.

Lemma wrap64_small z : - 2 ^ 63 <= z < 2 ^ 63 -> wrap64 z = z.
Proof.
  intros Hz. unfold wrap64. rewrite Z.mod_small by lia. lia.
Qed.

Let successes (results : list (TestResult F)) : Z :=
  Z.of_nat (length (List.filter Success results)).
Let failures (results : list (TestResult F)) : Z :=
  Z.of_nat (length (List.filter (fun r => negb (Success r)) results)).
Let valid (results : list (TestResult F)) : Z :=
  Z.of_nat (length (List.filter RPSValid results)).
Let records (results : list (TestResult F)) : Z :=
  fold_right Z.add 0 (List.map TotalRecords results).

Lemma summary_fold results (s : summary_state F) p f t v :
  passed s = wrap64 p -> failed s = wrap64 f ->
  totalRecords s = wrap64 t -> validRPSCount s = wrap64 v ->
  passed (fold_left summary_step results s) = wrap64 (p + successes results)
  /\ failed (fold_left summary_step results s) = wrap64 (f + failures results)
  /\ totalRecords (fold_left summary_step results s) = wrap64 (t + records results)
  /\ validRPSCount (fold_left summary_step results s) = wrap64 (v + valid results)
  /\ (maxRPS (fold_left summary_step results s) = maxRPS s
      \/ exists r, r ∈ results /\ RPSValid r = true
                   /\ maxRPS (fold_left summary_step results s) = RecordsPerSecond r)
  /\ (Forall (fun r => RPSValid r = false) results ->
      totalValidRPS (fold_left summary_step results s) = totalValidRPS s
      /\ maxRPS (fold_left summary_step results s) = maxRPS s).
Proof.
  unfold successes, failures, valid, records.
  revert s p f t v. induction results as [|r results IH]; intros s p f t v Hp Hf Ht Hv.
  - simpl. rewrite !Z.add_0_r. repeat split; auto.
  - cbn [fold_left].
    destruct (IH (summary_step s r)
                (if Success r then p + 1 else p)
                (if Success r then f else f + 1)
                (t + TotalRecords r)
                (if RPSValid r then v + 1 else v))
      as (H1 & H2 & H3 & H4 & H5 & H6).
    { simpl. destruct (Success r); [rewrite Hp; apply wrap64_add | exact Hp]. }
    { simpl. destruct (Success r); [exact Hf | rewrite Hf; apply wrap64_add]. }
    { simpl. rewrite Ht. apply wrap64_add. }
    { simpl. destruct (RPSValid r); [rewrite Hv; apply wrap64_add | exact Hv]. }
    rewrite H1, H2, H3, H4. cbn [List.filter List.map fold_right].
    split; [|split; [|split; [|split; [|split]]]].
    + destruct (Success r); cbn [length]; f_equal; lia.
    + destruct (Success r); cbn [negb length]; f_equal; lia.
    + f_equal. lia.
    + destruct (RPSValid r); cbn [length]; f_equal; lia.
    + destruct H5 as [H5|(r' & Hin & Hvalid & H5)].
      * rewrite H5. simpl.
        destruct (RPSValid r) eqn:Hvalid; simpl; [|left; reflexivity].
        destruct (f_gt F (RecordsPerSecond r) (maxRPS s)); [|left; reflexivity].
        right. exists r. split; [left | split; [exact Hvalid | reflexivity]].
      * right. exists r'. split; [right; exact Hin | split; assumption].
    + intros Hall. inversion Hall as [|? ? Hr Hrest]; subst.
      destruct (H6 Hrest) as [H6a H6b]. rewrite H6a, H6b. simpl.
      rewrite Hr. simpl. split; reflexivity.
Qed.

(** X19.  For a summary over fewer than 2^63 results, the passed and the
    failed tests add up to the total, which is the number of results; the
    total of the records is the sum of the results' records in [int64]
    arithmetic; the maximal throughput is 0 or the throughput of a result
    whose throughput is valid; and without any valid throughput the average
    and the maximum are 0. *)
Theorem generateSummary_counts results duration :
  Z.of_nat (length results) < 2 ^ 63 ->
  TestSummary.TotalTests (generateSummary F results duration)
  = Z.of_nat (length results)
  /\ TestSummary.PassedTests (generateSummary F results duration)
     + TestSummary.FailedTests (generateSummary F results duration)
     = TestSummary.TotalTests (generateSummary F results duration)
  /\ TestSummary.PassedTests (generateSummary F results duration)
     = Z.of_nat (length (List.filter Success results))
  /\ TestSummary.TotalRecords (generateSummary F results duration)
     = wrap64 (fold_right Z.add 0 (List.map TotalRecords results))
  /\ (TestSummary.MaxRPS (generateSummary F results duration) = f_zero F
      \/ exists r, r ∈ results /\ RPSValid r = true
                   /\ TestSummary.MaxRPS (generateSummary F results duration)
                      = RecordsPerSecond r)
  /\ (Forall (fun r => RPSValid r = false) results ->
      TestSummary.AverageRPS (generateSummary F results duration) = f_zero F
      /\ TestSummary.MaxRPS (generateSummary F results duration) = f_zero F).
Proof.
  intros Hlen. unfold generateSummary. cbn [TestSummary.TotalTests
    TestSummary.PassedTests TestSummary.FailedTests TestSummary.TotalRecords
    TestSummary.AverageRPS TestSummary.MaxRPS].
  destruct (summary_fold results
              {| passed := 0; failed := 0; totalRecords := 0; validRPSCount := 0;
                 totalValidRPS := f_zero F; maxRPS := f_zero F |} 0 0 0 0)
    as (H1 & H2 & H3 & H4 & H5 & H6); try reflexivity.
  unfold successes, failures, valid, records in *. simpl in H5, H6.
  assert (forall f : TestResult F -> bool,
            Z.of_nat (length (List.filter f results))
            + Z.of_nat (length (List.filter (fun r => negb (f r)) results))
            = Z.of_nat (length results)) as Hsplit.
  { intros f. clear. induction results as [|r l IHl]; simpl; [reflexivity|].
    destruct (f r); simpl; lia. }
  pose proof (Hsplit Success) as Hs. pose proof (Hsplit RPSValid) as Hv.
  rewrite H1, H2, H3, !Z.add_0_l, !wrap64_small by lia.
  split; [reflexivity|]. split; [exact Hs|]. split; [reflexivity|].
  split; [reflexivity|]. split; [exact H5|].
  intros Hall. destruct (H6 Hall) as [_ Hmax]. split; [|exact Hmax].
  rewrite H4, Z.add_0_l.
  assert (List.filter RPSValid results = []) as ->.
  { clear - Hall. induction Hall as [|r l Hr _ IHl]; simpl; [reflexivity|].
    rewrite Hr. exact IHl. }
  reflexivity.
Qed.

End IntegrationFacts.

(** ** Edge cases of the flush and of the timeout *)

Section FlushEdges.

Context {ES : Type}.
Variable ExecuteBatch :
  ES -> option SchemaInterface -> list row -> option error * ES.
Variable h : Heap.
Variable ctx : Context.

(** X20.  A flush of the empty batch returns nil without a look at the
    context and without a call, even under a cancelled context.  A flush of
    a batch that is not empty under a context that is already done returns
    the context's error, and nothing is assembled, reported or executed. *)
Theorem flush_edges batchData order es :
  range_of (schemaGroups batchData) order ->
  (batchData = [] ->
   flushFunc ExecuteBatch h ctx order es = (Returns None, start es))
  /\ (batchData <> [] ->
      forall e cause, ctx 0%nat = Done e cause ->
      (flushFunc ExecuteBatch h ctx order es).1
      = Returns (Some (ctx_error_to_error e))
      /\ trace (flushFunc ExecuteBatch h ctx order es).2 = []
      /\ executor (flushFunc ExecuteBatch h ctx order es).2 = es).
Proof.
  unfold range_of. intros Hrange. split.
  - intros ->. unfold schemaGroups in Hrange. simpl in Hrange.
    rewrite map_to_list_empty in Hrange. apply Permutation_nil_r in Hrange.
    subst order. reflexivity.
  - intros Hne e cause Hdone.
    destruct order as [|[schema requests] rest].
    + exfalso. symmetry in Hrange. apply Permutation_nil_r in Hrange.
      apply map_to_list_empty_iff in Hrange.
      destruct batchData as [|r l]; [congruence|].
      assert (schemaGroups (r :: l) !! SchemaOf r <> None) as Hgroup.
      { rewrite schemaGroups_lookup, filter_cons.
        destruct (decide (SchemaOf r = SchemaOf r)); [discriminate | congruence]. }
      rewrite Hrange, lookup_empty in Hgroup. congruence.
    + unfold flushFunc. simpl. rewrite Hdone. simpl. auto.
Qed.

End FlushEdges.

(** X21.  A timeout of zero or less is no timeout: the processor then works
    under the caller's context, and what the timer of a derived context
    would do has no effect on [ExecuteOperations], for the relational and
    for the key-value processor. *)
Theorem WithTimeout_not_positive bp rp d own own' next ctx operations :
  d <= 0 ->
  SQLBatchProcessor.ExecuteOperations (SQLBatchProcessor.WithTimeout bp d)
    own next ctx operations
  = SQLBatchProcessor.ExecuteOperations
      (SQLBatchProcessor.NewSQLBatchProcessor (SQLBatchProcessor.db bp))
      own' next ctx operations
  /\ RedisBatchProcessor.ExecuteOperations (RedisBatchProcessor.WithTimeout rp d)
       own next ctx operations
     = RedisBatchProcessor.ExecuteOperations
         (RedisBatchProcessor.NewRedisBatchProcessor (RedisBatchProcessor.client rp))
         own' next ctx operations.
Proof.
  intros Hd. apply Z.ltb_ge in Hd.
  unfold SQLBatchProcessor.ExecuteOperations, RedisBatchProcessor.ExecuteOperations.
  simpl. rewrite Hd. split; reflexivity.
Qed.

(** ** The further properties on concrete inputs *)

Section ExtraExamples.

Import Fixture.

Let grouping_order := map_to_list (schemaGroups grouping_batch).
Let submitted := dataChan (Submits heap open_engine some_calls).
Let submitted_order := map_to_list (schemaGroups submitted).

(** Of the five calls of [some_calls], the first and the last enter the
    buffer. *)
Example Submits_some_calls :
  submitted = [request users_ptr [AInt 1; AString "a"];
               request schema1 [AInt 3; AString "c"]]
  /\ length (reported (Submits heap open_engine some_calls)) = 4%nat.
Proof. split; reflexivity. Qed.

Lemma Submits_closed_witness :
  closed closed_engine = true
  /\ Submits heap closed_engine some_calls = closed_engine
  /\ accepted heap closed_engine some_calls = [].
Proof.
  split; [reflexivity|].
  exact (Submits_closed heap closed_engine some_calls eq_refl).
Defined.

Lemma flush_conserves_rows_witness :
  range_of (schemaGroups grouping_batch) grouping_order
  /\ executed_rows
       (trace (flushFunc ok_executor heap background grouping_order tt).2)
     = 6%nat.
Proof.
  assert (range_of (schemaGroups grouping_batch) grouping_order) as Hrange
    by (unfold range_of; reflexivity).
  split; [exact Hrange|].
  apply (proj2 (flush_conserves_rows ok_executor heap background
                  grouping_batch grouping_order tt Hrange)).
  vm_compute. reflexivity.
Defined.

Lemma flush_of_submitted_no_panic_witness :
  dataChan open_engine = []
  /\ range_of (schemaGroups (dataChan (Submits heap open_engine some_calls)))
       submitted_order
  /\ (flushFunc ok_executor heap background submitted_order tt).1 <> Panics.
Proof.
  assert (range_of (schemaGroups (dataChan (Submits heap open_engine some_calls)))
            submitted_order) as Hrange by (unfold range_of; reflexivity).
  split; [reflexivity|]. split; [exact Hrange|].
  exact (flush_of_submitted_no_panic ok_executor heap background open_engine
           some_calls submitted_order tt eq_refl Hrange).
Defined.

Lemma flush_small_groups_witness :
  Forall (fun entry : option SchemaInterface * list Request =>
            Z.of_nat (length entry.2) <= 10000) grouping_order
  /\ clock (flushFunc ok_executor heap background grouping_order tt).2 = 2%nat.
Proof.
  assert (Forall (fun entry : option SchemaInterface * list Request =>
                    Z.of_nat (length entry.2) <= 10000) grouping_order) as Hsmall
    by (apply (bool_decide_unpack _); vm_compute; exact I).
  split; [exact Hsmall|].
  rewrite (proj2 (flush_small_groups ok_executor heap background
                    grouping_order tt Hsmall)).
  - vm_compute. reflexivity.
  - vm_compute. reflexivity.
Defined.

Lemma assemble_large_group_witness :
  10000 < Z.of_nat (length (replicate (Z.to_nat 10001) short_request))
  /\ (assemble heap background (Some users_ptr)
        (length (replicate (Z.to_nat 10001) short_request)) 0
        (replicate (Z.to_nat 10001) short_request) 0).2 = 11%nat.
Proof.
  assert (10000 < Z.of_nat (length (replicate (Z.to_nat 10001) short_request)))
    as Hlarge by (rewrite length_replicate; lia).
  split; [exact Hlarge|].
  rewrite (assemble_large_group heap background users_ptr
             (replicate (Z.to_nat 10001) short_request) 0 Hlarge
             (fun k => eq_refl)).
  cbn [snd]. rewrite length_replicate, Z2Nat.id by lia. reflexivity.
Defined.

Lemma SQL_generate_then_execute_witness :
  exists operations,
    SQLBatchProcessor.GenerateOperations mysql_driver heap 1 background
      (Some users_ptr) two_rows = (inr operations, 1%positive)
    /\ length operations = 5%nat
    /\ (SQLBatchProcessor.ExecuteOperations ok_sql timer_pending 1 background
          operations).1 = None.
Proof.
  eexists. split; [vm_compute; reflexivity|].
  match goal with |- length ?ops = _ /\ _ =>
    destruct (SQL_generate_then_execute mysql_driver ok_sql heap timer_pending 1
                background background (Some users_ptr) two_rows ops 1 eq_refl)
      as (p & sql & args & _ & _ & _ & Hnil & _) end.
  split; [reflexivity|]. apply Hnil. reflexivity.
Defined.

Lemma Redis_generate_then_execute_witness :
  exists operations,
    RedisBatchProcessor.GenerateOperations set_driver heap 1 background
      (Some (PtrSchema 1)) two_rows = (inr operations, 1%positive)
    /\ length operations = 2%nat
    /\ (RedisBatchProcessor.ExecuteOperations ok_redis timer_pending 1 background
          operations).1 = None.
Proof.
  eexists. split; [vm_compute; reflexivity|].
  match goal with |- length ?ops = _ /\ _ =>
    destruct (Redis_generate_then_execute set_driver ok_redis heap timer_pending 1
                background background (Some (PtrSchema 1)) two_rows ops 1 eq_refl
                (fun k _ => eq_refl))
      as (p & cmds & _ & Hcmds & _ & Hnil) end.
  split; [reflexivity|]. apply Hnil.
  vm_compute in Hcmds. injection Hcmds as <-.
  eexists. split; [reflexivity|]. repeat constructor.
Defined.

Lemma Redis_skips_other_operations_witness :
  (RedisBatchProcessor.ExecuteOperations ok_redis timer_pending 1 background
     mixed_operations).1
  = (RedisBatchProcessor.ExecuteOperations ok_redis timer_pending 1 background
       [OpCmd [AString "SET"; AString "a"; AInt 1];
        OpCmd [AString "SET"; AString "b"; AInt 2]]).1.
Proof.
  exact (Redis_skips_other_operations ok_redis timer_pending 1 background
           mixed_operations (fun k => eq_refl)).
Defined.

Lemma Redis_stops_at_done_context_witness :
  (RedisBatchProcessor.ExecuteOperations ok_redis timer_pending 1 cancelled_later
     mixed_operations).1 = Some Canceled.
Proof.
  apply (Redis_stops_at_done_context ok_redis timer_pending 1 cancelled_later
           mixed_operations 1 CtxCanceled Canceled).
  - intros k Hk. destruct k; [reflexivity | lia].
  - reflexivity.
  - simpl. lia.
Defined.

Lemma Redis_joins_command_errors_witness :
  (RedisBatchProcessor.ExecuteOperations failing_redis timer_pending 2 background
     mixed_operations).1 <> None
  /\ is_error
       (RedisBatchProcessor.ExecuteOperations failing_redis timer_pending 2
          background mixed_operations).1 (ErrorsNew 1 "WRONGTYPE") = true.
Proof.
  destruct (Redis_joins_command_errors failing_redis timer_pending 2 background
              mixed_operations [None; Some (ErrorsNew 1 "WRONGTYPE")]
              (fun k _ => eq_refl) eq_refl) as [Hnil His].
  split.
  - intros H. apply Hnil in H. inversion H as [|? ? _ Hrest]; subst.
    inversion Hrest; discriminate.
  - rewrite His. reflexivity.
Defined.

Lemma retryMetrics_counts_witness :
  Z.of_nat (length reporter_calls) < 2 ^ 31
  /\ retryMetrics.retry (retryMetrics.after retryMetrics.zero reporter_calls) = 1
  /\ retryMetrics.final (retryMetrics.after retryMetrics.zero reporter_calls) = 1
  /\ retryMetrics.inflight (retryMetrics.after retryMetrics.zero reporter_calls) = 0.
Proof.
  assert (Z.of_nat (length reporter_calls) < 2 ^ 31) as Hlen by reflexivity.
  split; [exact Hlen|].
  destruct (retryMetrics_counts reporter_calls Hlen) as (H1 & H2 & H3 & _).
  rewrite H1, H2, H3. repeat split.
Defined.

Lemma generateSummary_counts_witness :
  Z.of_nat (length two_results) < 2 ^ 63
  /\ TestSummary.PassedTests (generateSummary integer_floats two_results "1s")
     + TestSummary.FailedTests (generateSummary integer_floats two_results "1s")
     = 2
  /\ TestSummary.TotalRecords (generateSummary integer_floats two_results "1s")
     = 1010.
Proof.
  assert (Z.of_nat (length two_results) < 2 ^ 63) as Hlen by reflexivity.
  split; [exact Hlen|].
  destruct (generateSummary_counts integer_floats two_results "1s" Hlen)
    as (H1 & H2 & _ & H4 & _).
  rewrite H2, H1, H4. split; reflexivity.
Defined.

Lemma flush_edges_witness :
  range_of (schemaGroups grouping_batch) grouping_order
  /\ (flushFunc ok_executor heap cancelled grouping_order tt).1
     = Returns (Some Canceled)
  /\ trace (flushFunc ok_executor heap cancelled grouping_order tt).2 = [].
Proof.
  assert (range_of (schemaGroups grouping_batch) grouping_order) as Hrange
    by (unfold range_of; reflexivity).
  split; [exact Hrange|].
  destruct (proj2 (flush_edges ok_executor heap cancelled grouping_batch
                     grouping_order tt Hrange)
              ltac:(discriminate) CtxCanceled Canceled eq_refl)
    as (Hout & Htrace & _).
  split; [exact Hout | exact Htrace].
Defined.

Lemma WithTimeout_not_positive_witness :
  -5 <= 0
  /\ SQLBatchProcessor.ExecuteOperations
       (SQLBatchProcessor.WithTimeout slow_sql (-5)) timer_fired 7 background
       insert_users
     = (Some (Wrapped "exec" DeadlineExceeded), 7%positive).
Proof.
  assert (-5 <= 0) as Hd by lia.
  split; [exact Hd|].
  rewrite (proj1 (WithTimeout_not_positive slow_sql ok_redis (-5) timer_fired
                    timer_pending 7 background insert_users Hd)).
  reflexivity.
Defined.

End ExtraExamples.
